(** * Uniform-buffer layout packer of [src/components/ShaderParams.tsx]

    A shallow embedding of [calculateUniformLayout] and
    [writeParamsToBuffer], and the properties of the layout they implement.

    Modelling conventions.
    - Byte offsets are JS numbers (binary64) that hold integers; they are
      modelled as [Z].  The arithmetic of the model is that of the source as
      long as every number stays an integer that binary64 represents exactly,
      up to 2^53; above, the additions of the source round (2^55 + 4 is
      2^55).  The theorems that state where the slots lie for an arbitrary
      start offset therefore carry the bound [withinExactIntegers]; from the
      48-byte header of the render loop the bound holds for every array,
      which has fewer than 2^32 elements.  The JS remainder [%] takes the
      sign of the dividend: it is [Z.rem].
    - The offset map is a plain JS object used as a dictionary keyed by
      parameter id: a [gmap string Z].  An assignment to the key [__proto__]
      of such an object reaches the setter of the prototype, which ignores a
      number: it creates no entry, and [layoutStep] records none.
    - Parameter values are JS numbers, i.e. binary64 floats: [float].  The
      destination buffer is a [Float32Array]: a fixed-length sequence of cells
      that converts every stored number to binary32 ([fround]) and silently
      drops stores whose index is not an integer inside the array.
    - Besides the two functions, the development covers the handlers and the
      colour conversion of [ShaderControls] in the same file, and the block
      of [render] in [src/components/FireRenderer.tsx] that packs the header,
      the parameters and the footer into the buffer of a frame.  Strings are
      sequences of ASCII characters. *)

From Stdlib Require Import ZArith Lia.
From Stdlib Require Import Floats.PrimFloat Floats.SpecFloat Floats.FloatOps.
From Stdlib Require Import Strings.Ascii Strings.HexString.
From stdpp Require Import gmap strings list.

Local Open Scope Z_scope.
Set Warnings "-inexact-float".

(** ** Data model *)

(** Modelled from the spec: the declarations of [ShaderParam] and
    [UniformLayout] in [../types], which the source imports, are not among
    the sources.  The spec gives a parameter value as a float or a triple of
    floats; the source reads it as [param.value] and [param.value[k]]. *)
Inductive ParamValue : Type :=
  | Scalar (x : float)
  | Triple (r g b : float).

(** Modelled from the spec: a parameter descriptor has an id, a kind tag and
    a value.  The record has the fields the two functions read, under the
    names the source uses; the tag is the string the source compares with
    ['color'], ['vec3'] and ['float'], so that a tag outside these three is
    representable. *)
Record ShaderParam : Type := {
  id : string;
  type : string;
  value : ParamValue
}.

(** Modelled from the spec: a total size in bytes and a mapping from
    parameter id to byte offset, under the field names of the object the
    source returns, [{ size: totalSize, offsetMap }]. *)
Record UniformLayout : Type := {
  size : Z;
  offsetMap : gmap string Z
}.

(** ** [calculateUniformLayout] *)

(** [param.type === 'color' || param.type === 'vec3'] *)
Definition isVec (param : ShaderParam) : bool :=
  String.eqb (type param) "color" || String.eqb (type param) "vec3".

(** The locals [alignment] and [size] of the loop body: 4 unless the
    parameter is a colour or a vector, then 16. *)
Definition alignment (param : ShaderParam) : Z :=
  if isVec param then 16 else 4.

Definition paramSize (param : ShaderParam) : Z :=
  if isVec param then 16 else 4.

(** [(alignment - (currentOffset % alignment)) % alignment] *)
Definition padding (alignment currentOffset : Z) : Z :=
  Z.rem (alignment - Z.rem currentOffset alignment) alignment.

(** [offsetMap[key] = value] on the plain object of the loop: every key
    becomes an own property, except [__proto__], whose assignment with a
    number is ignored. *)
Definition assignOffset (offsets : gmap string Z) (key : string) (value : Z)
  : gmap string Z :=
  if String.eqb key "__proto__" then offsets else <[key := value]> offsets.

(** One iteration of [params.forEach]; the state is the pair of the mutable
    [currentOffset] and the [offsetMap] object. *)
Definition layoutStep (st : Z * gmap string Z) (param : ShaderParam)
  : Z * gmap string Z :=
  let '(currentOffset, offsets) := st in
  let currentOffset := currentOffset + padding (alignment param) currentOffset in
  let offsets := assignOffset offsets (id param) currentOffset in
  (currentOffset + paramSize param, offsets).

(** [startOffset] is passed explicitly (the source defaults it to 0; the
    render loop passes the header size, 48). *)
Definition calculateUniformLayout (params : list ShaderParam) (startOffset : Z)
  : UniformLayout :=
  let '(currentOffset, offsets) := fold_left layoutStep params (startOffset, ∅) in
  let totalPadding := padding 16 currentOffset in
  let totalSize := currentOffset + totalPadding in
  {| size := totalSize; offsetMap := offsets |}.

(** The offset the loop stores for the parameter at position [i] when it
    processes it: the entry of that parameter's id once the loop has run over
    the first [i + 1] parameters.  A later parameter with the same id
    overwrites the entry in the returned map. *)
Definition recordedOffset (params : list ShaderParam) (startOffset : Z) (i : nat)
  : option Z :=
  match params !! i with
  | Some param =>
      offsetMap (calculateUniformLayout (take (S i) params) startOffset) !! id param
  | None => None
  end.

(** ** [writeParamsToBuffer] *)

(** Conversion of a number to the binary32 cell of a [Float32Array]
    (round to nearest, ties to even; overflow gives an infinity). *)
Definition fround (x : float) : float :=
  match Prim2SF x with
  | S754_finite s m e => SF2Prim (binary_round 24 128 s m e)
  | _ => x
  end.

(** [data[index] = x] on a [Float32Array].  The index is [None] when the JS
    number is not an integer ([NaN], a fraction); such a store, and a store
    at a negative index or past the end, does nothing. *)
Definition store (data : list float) (index : option Z) (x : float) : list float :=
  match index with
  | Some i => if 0 <=? i then <[Z.to_nat i := fround x]> data else data
  | None => data
  end.

(** [layout.offsetMap[param.id] / 4]: [undefined / 4] is [NaN], as is the
    quotient of what the key [__proto__] reads when the object has no such
    entry, and the quotient of an offset that 4 does not divide is a
    fraction. *)
Definition floatOffset (layout : UniformLayout) (param : ShaderParam) : option Z :=
  match offsetMap layout !! id param with
  | Some off => if Z.rem off 4 =? 0 then Some (Z.quot off 4) else None
  | None => None
  end.

(** [floatOffset + k]: adding an integer to a non-integer gives a non-integer. *)
Definition indexPlus (index : option Z) (k : Z) : option Z :=
  match index with
  | Some i => Some (i + k)
  | None => None
  end.

(** A value used where a number is expected: a three-element array converts
    to [NaN]. *)
Definition toNumber (v : ParamValue) : float :=
  match v with
  | Scalar x => x
  | Triple _ _ _ => nan
  end.

(** [param.value[k]] stored in a cell: indexing a number gives [undefined],
    which converts to [NaN]. *)
Definition component (v : ParamValue) (k : nat) : float :=
  match v, k with
  | Triple r _ _, 0%nat => r
  | Triple _ g _, 1%nat => g
  | Triple _ _ b, 2%nat => b
  | _, _ => nan
  end.

(** The element assignments one iteration of the writer performs, in order. *)
Definition assignments (layout : UniformLayout) (param : ShaderParam)
  : list (option Z * float) :=
  let floatOffset := floatOffset layout param in
  if String.eqb (type param) "float" then
    [(floatOffset, toNumber (value param))]
  else if isVec param then
    [(floatOffset, component (value param) 0);
     (indexPlus floatOffset 1, component (value param) 1);
     (indexPlus floatOffset 2, component (value param) 2)]
  else [].

Definition writeStep (layout : UniformLayout) (data : list float)
    (param : ShaderParam) : list float :=
  fold_left (λ d a, store d a.1 a.2) (assignments layout param) data.

Definition writeParamsToBuffer (data : list float) (params : list ShaderParam)
    (layout : UniformLayout) : list float :=
  fold_left (writeStep layout) params data.

(** ** Vocabulary of the contract *)

(** [m] is the smallest multiple of [a] that is at least [x]. *)
Definition smallest_multiple_ge (a x m : Z) : Prop :=
  (a | m) ∧ x ≤ m ∧ ∀ m', (a | m') → x ≤ m' → m ≤ m'.

(** The value of [currentOffset] after the loop has run over [params],
    started at [currentOffset] (the first component of the loop state,
    [fold_layoutStep_fst]). *)
Fixpoint scanEnd (currentOffset : Z) (params : list ShaderParam) : Z :=
  match params with
  | [] => currentOffset
  | param :: rest =>
      scanEnd (currentOffset + padding (alignment param) currentOffset
               + paramSize param) rest
  end.

(** The bytes the parameters take without any padding. *)
Definition sumSizes (params : list ShaderParam) : Z :=
  foldr (λ param acc, paramSize param + acc) 0 params.

(** The words of the buffer that hold the value of [param] under [layout]:
    the word at [offsetOf[id] / 4] for a float, that word and the next two
    for a colour or vector. *)
Definition valueWord (layout : UniformLayout) (param : ShaderParam) (j : nat)
  : Prop :=
  ∃ o, offsetMap layout !! id param = Some o ∧
       ((type param = "float" ∧ 4 * Z.of_nat j = o) ∨
        ((type param = "color" ∨ type param = "vec3") ∧
         (4 * Z.of_nat j = o ∨ 4 * Z.of_nat j = o + 4 ∨
          4 * Z.of_nat j = o + 8))).

(** Every number the loop computes for [params] from [startOffset] is at
    most 2^53: the total size is below [startOffset + 16 * (count + 1)]
    ([layout_within_exact_integers]).  Up to there binary64 holds every
    integer, and the sums of the source are the sums of the model. *)
Definition withinExactIntegers (params : list ShaderParam) (startOffset : Z)
  : Prop :=
  startOffset + 16 * Z.of_nat (length params) + 16 ≤ 2 ^ 53.

(** No parameter carries the id that a plain object does not store. *)
Definition ordinaryIds (params : list ShaderParam) : Prop :=
  "__proto__" ∉ (id <$> params).

(** Parameters that share an id have the same size. *)
Definition sameIdSameSize (params : list ShaderParam) : Prop :=
  ∀ p q, p ∈ params → q ∈ params → id p = id q → paramSize p = paramSize q.

(** The buffer of the render loop, [new Float32Array(512 / 4)]. *)
Definition uniformData : list float := replicate 128 0%float.

(** A list in which the id ["a"] is carried by a colour and, later, by a
    float. *)
Definition reusedIdParams : list ShaderParam :=
  [ {| id := "a"; type := "color"; value := Triple 1 0 0 |};
    {| id := "b"; type := "float"; value := Scalar 1 |};
    {| id := "c"; type := "float"; value := Scalar 2 |};
    {| id := "d"; type := "float"; value := Scalar 3 |};
    {| id := "a"; type := "float"; value := Scalar 4 |} ].

(** A float whose id is the key a plain object does not store. *)
Definition protoFloat : ShaderParam :=
  {| id := "__proto__"; type := "float"; value := Scalar 7 |}.

(** Three floats, the last two with the same id. *)
Definition repeatedFloats : list ShaderParam :=
  [ {| id := "b"; type := "float"; value := Scalar 1 |};
    {| id := "a"; type := "float"; value := Scalar 2 |};
    {| id := "a"; type := "float"; value := Scalar 3 |} ].

(** Three colours, the last two with the same id. *)
Definition repeatedColours : list ShaderParam :=
  [ {| id := "b"; type := "color"; value := Triple 1 0 0 |};
    {| id := "a"; type := "color"; value := Triple 0 1 0 |};
    {| id := "a"; type := "vec3"; value := Triple 0 0 1 |} ].

(** A parameter of a kind the code does not know, under the id
    [__proto__]. *)
Definition protoUnknown : ShaderParam :=
  {| id := "__proto__"; type := "vec2"; value := Scalar 1 |}.


(** A colour followed by a vector. *)
Definition vectorParams : list ShaderParam :=
  [ {| id := "baseColor"; type := "color"; value := Triple 1 0.5 0.25 |};
    {| id := "lightDir"; type := "vec3"; value := Triple 0 1 0 |} ].

(** The parameters of the first preset of the application: four scalars and
    a colour.  The render loop lays them out after a header of 48 bytes. *)
Definition presetParams : list ShaderParam :=
  [ {| id := "flowSpeed"; type := "float"; value := Scalar 0.5 |};
    {| id := "metallic"; type := "float"; value := Scalar 1 |};
    {| id := "roughness"; type := "float"; value := Scalar 0.05 |};
    {| id := "grainStrength"; type := "float"; value := Scalar 0.05 |};
    {| id := "baseColor"; type := "color"; value := Triple 1 1 1 |} ].

(** ** The controls of [ShaderControls] *)

(** [handleFloatChange]: the list handed to [setParams]. *)
Definition handleFloatChange (params : list ShaderParam) (id' : string)
    (newVal : float) : list ShaderParam :=
  (λ p, if String.eqb (id p) id' && String.eqb (type p) "float"
        then {| id := id p; type := type p; value := Scalar newVal |}
        else p) <$> params.

(** White space that [parseInt] skips, among the ASCII characters. *)
Definition isWhiteSpace (c : ascii) : bool :=
  bool_decide (nat_of_ascii c ∈ [9; 10; 11; 12; 13; 32]%nat).

Fixpoint trimStart (s : string) : string :=
  match s with
  | String c rest => if isWhiteSpace c then trimStart rest else s
  | EmptyString => s
  end.

(** The value of a digit in radix 16, in either case. *)
Definition hexValue (c : ascii) : option Z :=
  let n := Z.of_nat (nat_of_ascii c) in
  if (48 <=? n) && (n <=? 57) then Some (n - 48)
  else if (97 <=? n) && (n <=? 102) then Some (n - 87)
  else if (65 <=? n) && (n <=? 70) then Some (n - 55)
  else None.

(** The integer denoted by the longest prefix of hexadecimal digits;
    [acc] is [None] until a digit has been read. *)
Fixpoint hexPrefix (s : string) (acc : option Z) : option Z :=
  match s with
  | String c rest =>
      match hexValue c with
      | Some d => hexPrefix rest (Some (16 * default 0 acc + d))
      | None => acc
      end
  | EmptyString => acc
  end.

(** The Number for a mathematical integer with a sign (so that [-0] is
    kept): rounding to binary64, exact below 2^53. *)
Definition numberOfInt (negative : bool) (n : Z) : float :=
  SF2Prim (binary_normalize 53 1024 (if negative then - n else n) 0 negative).

(** [parseInt(s, 16)] on a string of ASCII characters: skip white space,
    read a sign, skip a [0x] or [0X] prefix, read the digits; [NaN] when
    there is no digit. *)
Definition parseInt16 (s : string) : float :=
  let s := trimStart s in
  let '(negative, s) :=
    match s with
    | String "-" rest => (true, rest)
    | String "+" rest => (false, rest)
    | _ => (false, s)
    end in
  let s :=
    match s with
    | String "0" (String "x" rest) => rest
    | String "0" (String "X" rest) => rest
    | _ => s
    end in
  match hexPrefix s None with
  | Some n => numberOfInt negative n
  | None => nan
  end.

(** [hex.slice(start, end)] for [0 ≤ start ≤ end]. *)
Definition slice (s : string) (first last : nat) : string :=
  String.substring first (last - first) s.

(** [newColor] of [handleColorChange]. *)
Definition parseColor (hex : string) : ParamValue :=
  let r := (parseInt16 (slice hex 1 3) / 255)%float in
  let g := (parseInt16 (slice hex 3 5) / 255)%float in
  let b := (parseInt16 (slice hex 5 7) / 255)%float in
  Triple r g b.

(** [handleColorChange]: the list handed to [setParams]. *)
Definition handleColorChange (params : list ShaderParam) (id' : string)
    (hex : string) : list ShaderParam :=
  let newColor := parseColor hex in
  (λ p, if String.eqb (id p) id' && isVec p
        then {| id := id p; type := type p; value := newColor |}
        else p) <$> params.

(** The result of [Math.round]: an integer, an infinity or [NaN] (a zero of
    either sign is the integer 0; both print as ["0"]). *)
Inductive Rounded : Type :=
  | RoundedNaN
  | RoundedInfinity (negative : bool)
  | RoundedInt (n : Z).

(** [Math.round(x)]: the integer [floor(x + 1/2)], computed exactly on the
    mantissa and exponent of [x]. *)
Definition mathRound (x : float) : Rounded :=
  match Prim2SF x with
  | S754_nan => RoundedNaN
  | S754_infinity s => RoundedInfinity s
  | S754_zero _ => RoundedInt 0
  | S754_finite s m e =>
      let n := if s then Z.neg m else Z.pos m in
      RoundedInt
        match e with
        | Z.neg k => (2 * n + 2 ^ Z.pos k) `div` 2 ^ (Z.pos k + 1)
        | _ => n * 2 ^ e
        end
  end.

(** [n.toString(16)] for a result of [Math.round]. *)
Definition toString16 (r : Rounded) : string :=
  match r with
  | RoundedNaN => "NaN"
  | RoundedInfinity false => "Infinity"
  | RoundedInfinity true => "-Infinity"
  | RoundedInt Z0 => "0"
  | RoundedInt (Z.pos p) => HexString.Raw.of_pos p ""
  | RoundedInt (Z.neg p) => "-" ++ HexString.Raw.of_pos p ""
  end.

(** [toHex] of [rgbToHex]. *)
Definition toHex (c : float) : string :=
  let hex := toString16 (mathRound (c * 255)%float) in
  if (String.length hex =? 1)%nat then "0" ++ hex else hex.

(** [rgbToHex(param.value)]; the components of a value that is not an array
    are [undefined], which the product with 255 turns into [NaN]. *)
Definition rgbToHex (rgb : ParamValue) : string :=
  "#" ++ toHex (component rgb 0) ++ toHex (component rgb 1)
      ++ toHex (component rgb 2).

(** The strings a colour input hands to [handleColorChange]: a [#] and six
    lower-case hexadecimal digits. *)
Definition lowerHexDigit (c : ascii) : bool :=
  let n := nat_of_ascii c in
  ((48 <=? n) && (n <=? 57) || (97 <=? n) && (n <=? 102))%nat.

Definition lowerHexColor (hex : string) : bool :=
  match hex with
  | String "#" (String r1 (String r2 (String g1 (String g2
      (String b1 (String b2 EmptyString)))))) =>
      forallb lowerHexDigit [r1; r2; g1; g2; b1; b2]
  | _ => false
  end.

(** The sixteen lower-case hexadecimal digits. *)
Definition lowerHexDigits : list ascii :=
  String.list_ascii_of_string "0123456789abcdef".

(** The text of a channel survives the conversion to a number in [0, 1] and
    back. *)
Definition channelRoundTrips (c1 c2 : ascii) : bool :=
  String.eqb
    (toHex (parseInt16 (String c1 (String c2 EmptyString)) / 255)%float)
    (String c1 (String c2 EmptyString)).

(** ** The uniform block of the render loop ([render] in
    [src/components/FireRenderer.tsx]) *)

Definition STANDARD_HEADER_SIZE : Z := 48.

(** [let offset = layout.size / 4;
     if (offset % 4 !== 0) offset += (4 - (offset % 4));]
    for the layout the loop has just computed.  The quotient is an integer:
    the size of a computed layout is a multiple of 16 ([size_words]). *)
Definition footerOffset (params : list ShaderParam) : Z :=
  let layout := calculateUniformLayout params STANDARD_HEADER_SIZE in
  let offset := Z.quot (size layout) 4 in
  if negb (Z.rem offset 4 =? 0) then offset + (4 - Z.rem offset 4) else offset.

(** What the block reads from the state of the component in one frame.
    The camera position, the audio bands and the elapsed time are computed
    earlier in [render] and are inputs here; [aberration] is [None] when
    there is no recording configuration. *)
Record FrameState : Type := {
  width : float; height : float; elapsedTime : float;
  cx : float; cy : float; cz : float;
  mouseX : float; mouseY : float; mouseIsDown : float;
  capturePending : float; isRecording : bool; aberration : option float;
  low : float; mid : float; high : float; vol : float;
  scrollY : float; currentScrollEffect : string;
  scrollStrength : float; scrollSpeed : float;
  textureScaleX : float; textureScaleY : float;
  textureOffsetX : float; textureOffsetY : float
}.

(** [x || 0.0] for an optional number: [undefined], a zero and [NaN] are
    falsy. *)
Definition orZero (x : option float) : float :=
  match x with
  | Some v => if is_nan v || is_zero v then 0%float else v
  | None => 0%float
  end.

(** The chain of [if (currentScrollEffect === ...) typeVal = ...]. *)
Definition scrollTypeVal (effect : string) : float :=
  let typeVal := 0%float in
  let typeVal := if String.eqb effect "twist" then 1%float else typeVal in
  let typeVal := if String.eqb effect "fly" then 2%float else typeVal in
  let typeVal := if String.eqb effect "chromatic" then 3%float else typeVal in
  let typeVal := if String.eqb effect "liquify" then 4%float else typeVal in
  let typeVal := if String.eqb effect "glitch" then 5%float else typeVal in
  let typeVal := if String.eqb effect "blackhole" then 6%float else typeVal in
  let typeVal := if String.eqb effect "kaleidoscope" then 7%float else typeVal in
  typeVal.

(** The assignments before [writeParamsToBuffer], in order. *)
Definition headerAssignments (st : FrameState) : list (option Z * float) :=
  [ (Some 0, width st); (Some 1, height st); (Some 2, elapsedTime st);
    (Some 4, cx st); (Some 5, cy st); (Some 6, cz st);
    (Some 8, (mouseX st / width st)%float);
    (Some 9, (mouseY st / height st)%float);
    (Some 10, mouseIsDown st) ].

(** The assignments after [writeParamsToBuffer], in order. *)
Definition footerAssignments (st : FrameState) (offset : Z)
  : list (option Z * float) :=
  [ (Some offset, 0.1%float);
    (Some (offset + 1), 0.6%float);
    (Some (offset + 2),
     if (0 <? capturePending st)%float then capturePending st
     else if isRecording st then 2%float else 0%float);
    (Some (offset + 3), orZero (aberration st));
    (Some (offset + 4), low st); (Some (offset + 5), mid st);
    (Some (offset + 6), high st); (Some (offset + 7), vol st);
    (Some (offset + 8), scrollY st);
    (Some (offset + 9), scrollTypeVal (currentScrollEffect st));
    (Some (offset + 10), scrollStrength st);
    (Some (offset + 11), scrollSpeed st);
    (Some (offset + 12), textureScaleX st);
    (Some (offset + 13), textureScaleY st);
    (Some (offset + 14), textureOffsetX st);
    (Some (offset + 15), textureOffsetY st) ].

Definition stores (data : list float) (l : list (option Z * float))
  : list float :=
  fold_left (λ d a, store d a.1 a.2) l data.

(** The buffer handed to [device.queue.writeBuffer]: a fresh array of 128
    words, the header, the parameters, the footer. *)
Definition packUniforms (st : FrameState) (currentParams : list ShaderParam)
  : list float :=
  let layout := calculateUniformLayout currentParams STANDARD_HEADER_SIZE in
  let data := stores uniformData (headerAssignments st) in
  let data := writeParamsToBuffer data currentParams layout in
  stores data (footerAssignments st (footerOffset currentParams)).

Definition sampleFrame : FrameState :=
  {| width := 1920; height := 1080; elapsedTime := 1.5;
     cx := 0; cy := 0; cz := 4.5;
     mouseX := 960; mouseY := 270; mouseIsDown := 1;
     capturePending := 0; isRecording := true; aberration := Some 0.25%float;
     low := 0.5; mid := 0.25; high := 0.125; vol := 0.75;
     scrollY := 0.5; currentScrollEffect := "fly";
     scrollStrength := 0.5; scrollSpeed := 0.5;
     textureScaleX := 0.5; textureScaleY := 0.5;
     textureOffsetX := 0; textureOffsetY := 0 |}.

(** Sanity checks on the first preset. *)
Example preset_layout_size : size (calculateUniformLayout presetParams 48) = 80.
Proof. reflexivity. Qed.

Example preset_layout_color :
  offsetMap (calculateUniformLayout presetParams 48) !! "baseColor" = Some 64.
Proof. vm_compute. reflexivity. Qed.

Example preset_write_words :
  take 8 (drop 12 (writeParamsToBuffer uniformData presetParams
                     (calculateUniformLayout presetParams 48)))
  = [0.5; 1; fround 0.05; fround 0.05; 1; 1; 1; 0]%float.
Proof. vm_compute. reflexivity. Qed.

Example fround_examples :
  fround 0.5 = 0.5%float ∧ fround 16777217 = 16777216%float ∧
  fround 1e39 = infinity ∧ fround nan = nan.
Proof. vm_compute. auto. Qed.

(** ** Arithmetic of the padding formula *)

Section Padding.
Variable a : Z.
Hypothesis a_pos : 0 < a.

Lemma padding_nonneg c : 0 ≤ padding a c < a.
Proof.
  unfold padding.
  pose proof (Z.rem_bound_abs c a ltac:(lia)) as Hb.
  assert (0 < a - Z.rem c a) by lia.
  pose proof (Z.rem_bound_pos (a - Z.rem c a) a ltac:(lia) a_pos). lia.
Qed.

Lemma padding_mod c : 0 ≤ c → padding a c = (a - c mod a) mod a.
Proof.
  intros Hc. unfold padding.
  rewrite (Z.rem_mod_nonneg c a) by lia.
  pose proof (Z.mod_pos_bound c a a_pos).
  apply Z.rem_mod_nonneg; lia.
Qed.

Lemma padding_aligned c : 0 ≤ c → (a | c + padding a c).
Proof.
  intros Hc. rewrite padding_mod by done.
  apply Z.mod_divide; [lia|].
  rewrite Zplus_mod_idemp_r.
  replace (c + (a - c mod a)) with (c - c mod a + 1 * a) by lia.
  rewrite Z_mod_plus_full, Zminus_mod_idemp_r, Z.sub_diag. done.
Qed.

Lemma padding_least c m : 0 ≤ c → (a | m) → c ≤ m → c + padding a c ≤ m.
Proof.
  intros Hc [k ->] Hle.
  pose proof (padding_nonneg c) as Hp.
  destruct (padding_aligned c Hc) as [q Hq].
  assert (q - 1 < k) by nia. nia.
Qed.

Lemma padding_spec c : 0 ≤ c → smallest_multiple_ge a c (c + padding a c).
Proof.
  intros Hc. split; [by apply padding_aligned|]. split.
  - pose proof (padding_nonneg c). lia.
  - intros m' ? ?. by apply padding_least.
Qed.

Lemma padding_of_multiple c : 0 ≤ c → (a | c) → padding a c = 0.
Proof.
  intros Hc Hd.
  pose proof (padding_least c c Hc Hd ltac:(lia)).
  pose proof (padding_nonneg c). lia.
Qed.
End Padding.

(** ** Facts about the tags *)

Lemma alignment_cases param :
  (isVec param = true ∧ alignment param = 16 ∧ paramSize param = 16) ∨
  (isVec param = false ∧ alignment param = 4 ∧ paramSize param = 4).
Proof. unfold alignment, paramSize. destruct (isVec param); auto. Qed.

Lemma isVec_true param :
  isVec param = true ↔ type param = "color" ∨ type param = "vec3".
Proof.
  unfold isVec. rewrite orb_true_iff, !String.eqb_eq. done.
Qed.

Lemma isVec_float param : type param = "float" → isVec param = false.
Proof. intros H. unfold isVec. by rewrite H. Qed.

Lemma alignment_pos param : 0 < alignment param.
Proof. destruct (alignment_cases param) as [(_ & -> & _)|(_ & -> & _)]; lia. Qed.

Lemma paramSize_pos param : 0 < paramSize param.
Proof. destruct (alignment_cases param) as [(_ & _ & ->)|(_ & _ & ->)]; lia. Qed.

Lemma alignment_divides_4 param : (4 | alignment param).
Proof.
  destruct (alignment_cases param) as [(_ & -> & _)|(_ & -> & _)];
    [by exists 4 | by exists 1].
Qed.

(** ** The loop of [calculateUniformLayout], position by position *)

Lemma calculateUniformLayout_fold params base :
  calculateUniformLayout params base =
  let st := fold_left layoutStep params (base, ∅) in
  {| size := st.1 + padding 16 st.1; offsetMap := st.2 |}.
Proof. unfold calculateUniformLayout. by destruct (fold_left _ _ _). Qed.

Lemma fold_layoutStep_fst params c m :
  (fold_left layoutStep params (c, m)).1 = scanEnd c params.
Proof.
  revert c m. induction params as [|p ps IH]; intros c m; simpl; [done|].
  apply IH.
Qed.

Lemma assignOffset_lookup_ne m k v k' :
  k ≠ k' → assignOffset m k v !! k' = m !! k'.
Proof.
  intros Hne. unfold assignOffset.
  destruct (String.eqb k "__proto__"); [done|]. by rewrite lookup_insert_ne.
Qed.

Lemma assignOffset_lookup_eq m k v :
  k ≠ "__proto__" → assignOffset m k v !! k = Some v.
Proof.
  intros Hne%String.eqb_neq. unfold assignOffset. rewrite Hne.
  apply lookup_insert_eq.
Qed.

Lemma assignOffset_proto m v : assignOffset m "__proto__" v = m.
Proof. done. Qed.

Lemma fold_layoutStep_notin params c m k :
  k ∉ (id <$> params) →
  (fold_left layoutStep params (c, m)).2 !! k = m !! k.
Proof.
  revert c m. induction params as [|p ps IH]; intros c m Hk; simpl; [done|].
  rewrite fmap_cons in Hk. apply not_elem_of_cons in Hk as [Hne Hk].
  rewrite IH by done. by rewrite assignOffset_lookup_ne.
Qed.

(** The loop never creates the key [__proto__]. *)
Lemma fold_layoutStep_proto params c m :
  (fold_left layoutStep params (c, m)).2 !! "__proto__" = m !! "__proto__".
Proof.
  revert c m. induction params as [|p ps IH]; intros c m; simpl; [done|].
  rewrite IH. unfold assignOffset.
  destruct (String.eqb_spec (id p) "__proto__") as [|Hne]; [done|].
  by rewrite lookup_insert_ne.
Qed.

Lemma offsetMap_proto params base :
  offsetMap (calculateUniformLayout params base) !! "__proto__" = None.
Proof.
  unfold calculateUniformLayout.
  pose proof (fold_layoutStep_proto params base ∅) as H.
  destruct (fold_left layoutStep params (base, ∅)). simpl in *.
  by rewrite H.
Qed.

Lemma scanEnd_app c ps qs : scanEnd c (ps ++ qs) = scanEnd (scanEnd c ps) qs.
Proof. revert c. induction ps as [|p ps IH]; intros c; simpl; [done|]. apply IH. Qed.

Lemma scanEnd_snoc c ps p :
  scanEnd c (ps ++ [p]) =
  scanEnd c ps + padding (alignment p) (scanEnd c ps) + paramSize p.
Proof. by rewrite scanEnd_app. Qed.

Lemma scanEnd_ge c ps : c + sumSizes ps ≤ scanEnd c ps.
Proof.
  revert c. induction ps as [|p ps IH]; intros c; simpl; [lia|].
  specialize (IH (c + padding (alignment p) c + paramSize p)).
  pose proof (padding_nonneg (alignment p) (alignment_pos p) c).
  unfold sumSizes in *. lia.
Qed.

Lemma sumSizes_nonneg ps : 0 ≤ sumSizes ps.
Proof.
  induction ps as [|p ps IH]; simpl; [done|].
  pose proof (paramSize_pos p). unfold sumSizes in *. lia.
Qed.

Lemma scanEnd_mono c ps : c ≤ scanEnd c ps.
Proof. pose proof (scanEnd_ge c ps). pose proof (sumSizes_nonneg ps). lia. Qed.

Lemma fold_layoutStep_snoc ps p c m :
  id p ≠ "__proto__" →
  (fold_left layoutStep (ps ++ [p]) (c, m)).2 !! id p =
  Some (scanEnd c ps + padding (alignment p) (scanEnd c ps)).
Proof.
  intros Hne. rewrite fold_left_app. simpl.
  destruct (fold_left layoutStep ps (c, m)) as [c' m'] eqn:E.
  assert (c' = scanEnd c ps) as ->.
  { by rewrite <- (fold_layoutStep_fst ps c m), E. }
  simpl. by rewrite assignOffset_lookup_eq.
Qed.

Lemma recordedOffset_scan params base i p :
  params !! i = Some p → id p ≠ "__proto__" →
  recordedOffset params base i =
  Some (scanEnd base (take i params)
        + padding (alignment p) (scanEnd base (take i params))).
Proof.
  intros Hi Hne. unfold recordedOffset. rewrite Hi.
  rewrite (take_S_r _ _ _ Hi), calculateUniformLayout_fold. simpl.
  by apply fold_layoutStep_snoc.
Qed.

(** The loop records no offset for a parameter with the id [__proto__]. *)
Lemma recordedOffset_proto params base i p :
  params !! i = Some p → id p = "__proto__" →
  recordedOffset params base i = None.
Proof.
  intros Hi Hid. unfold recordedOffset. rewrite Hi, Hid.
  apply offsetMap_proto.
Qed.

Lemma recordedOffset_not_proto params base i p o :
  params !! i = Some p → recordedOffset params base i = Some o →
  id p ≠ "__proto__".
Proof.
  intros Hi Ho Hid. by rewrite (recordedOffset_proto _ _ _ _ Hi Hid) in Ho.
Qed.

Lemma ordinaryIds_lookup params i p :
  ordinaryIds params → params !! i = Some p → id p ≠ "__proto__".
Proof.
  intros Hord Hi Hid. apply Hord. rewrite <- Hid.
  apply list_elem_of_fmap. exists p. split; [done|].
  by eapply list_elem_of_lookup_2.
Qed.

Lemma recordedOffset_is_Some params base i o :
  recordedOffset params base i = Some o → is_Some (params !! i).
Proof. unfold recordedOffset. destruct (params !! i); [eauto | done]. Qed.

Lemma scanEnd_take_S params base i p o :
  params !! i = Some p →
  recordedOffset params base i = Some o →
  scanEnd base (take (S i) params) = o + paramSize p.
Proof.
  intros Hi Ho. rewrite (recordedOffset_scan _ _ _ _ Hi (recordedOffset_not_proto _ _ _ _ _ Hi Ho)) in Ho.
  injection Ho as <-. rewrite (take_S_r _ _ _ Hi). apply scanEnd_snoc.
Qed.

Lemma size_scanEnd params base :
  size (calculateUniformLayout params base) =
  scanEnd base params + padding 16 (scanEnd base params).
Proof.
  rewrite calculateUniformLayout_fold. simpl.
  by rewrite fold_layoutStep_fst.
Qed.

(** The entry of the returned map for the id of a last occurrence is the
    offset recorded there. *)
Lemma offsetMap_lastOccurrence params base i p :
  params !! i = Some p →
  id p ∉ (id <$> drop (S i) params) →
  offsetMap (calculateUniformLayout params base) !! id p =
  recordedOffset params base i.
Proof.
  intros Hi Hlast. unfold recordedOffset. rewrite Hi.
  rewrite !calculateUniformLayout_fold. simpl.
  rewrite <- (take_drop (S i) params) at 1.
  rewrite fold_left_app.
  destruct (fold_left layoutStep (take (S i) params) (base, ∅)) as [c m].
  simpl. by apply fold_layoutStep_notin.
Qed.

Lemma offsetMap_NoDup params base i p :
  NoDup (id <$> params) →
  params !! i = Some p →
  offsetMap (calculateUniformLayout params base) !! id p =
  recordedOffset params base i.
Proof.
  intros Hnd Hi. apply offsetMap_lastOccurrence; [done|].
  rewrite <- (take_drop (S i) params), fmap_app in Hnd.
  apply NoDup_app in Hnd as (_ & Hdisj & _). apply Hdisj.
  apply list_elem_of_fmap. exists p. split; [done|].
  apply list_elem_of_lookup. exists i.
  rewrite lookup_take_lt by lia. done.
Qed.

Lemma last_occurrence_exists (params : list ShaderParam) k :
  k ∈ (id <$> params) →
  ∃ i p, params !! i = Some p ∧ id p = k ∧ k ∉ (id <$> drop (S i) params).
Proof.
  induction params as [|q ps IH]; intros Hk; [by apply elem_of_nil in Hk|].
  destruct (decide (k ∈ (id <$> ps))) as [Hin|Hnin].
  - destruct (IH Hin) as (i & p & Hi & Hp & Hl). by exists (S i), p.
  - rewrite fmap_cons in Hk. apply elem_of_cons in Hk as [->|Hk]; [|done].
    exists 0%nat, q. simpl. rewrite drop_0. done.
Qed.

(** Every entry of the returned map is the offset recorded at the last
    occurrence of its key. *)
Lemma offsetMap_entry params base k o :
  offsetMap (calculateUniformLayout params base) !! k = Some o →
  ∃ i p, params !! i = Some p ∧ id p = k ∧
         recordedOffset params base i = Some o ∧
         k ∉ (id <$> drop (S i) params).
Proof.
  intros Hk. destruct (decide (k ∈ (id <$> params))) as [Hin|Hnin].
  - destruct (last_occurrence_exists _ _ Hin) as (i & p & Hi & <- & Hl).
    exists i, p. repeat split; try done.
    by rewrite <- (offsetMap_lastOccurrence _ _ _ _ Hi Hl).
  - rewrite calculateUniformLayout_fold in Hk. simpl in Hk.
    rewrite fold_layoutStep_notin in Hk by done. by rewrite lookup_empty in Hk.
Qed.

Lemma scanEnd_take_le params base i j :
  (i ≤ j)%nat → scanEnd base (take i params) ≤ scanEnd base (take j params).
Proof.
  intros Hij.
  rewrite <- (take_drop i (take j params)), take_take, scanEnd_app.
  replace (i `min` j)%nat with i by lia. apply scanEnd_mono.
Qed.

Lemma scanEnd_take_total params base i :
  scanEnd base (take i params) ≤ scanEnd base params.
Proof.
  destruct (decide (i ≤ length params)%nat).
  - rewrite <- (firstn_all params) at 2. by apply scanEnd_take_le.
  - rewrite take_ge by lia. done.
Qed.

Lemma recordedOffset_ge params base i o :
  recordedOffset params base i = Some o → base ≤ o.
Proof.
  intros Ho. destruct (recordedOffset_is_Some _ _ _ _ Ho) as [p Hi].
  rewrite (recordedOffset_scan _ _ _ _ Hi (recordedOffset_not_proto _ _ _ _ _ Hi Ho)) in Ho. injection Ho as <-.
  pose proof (scanEnd_mono base (take i params)).
  pose proof (padding_nonneg (alignment p) (alignment_pos p)
                (scanEnd base (take i params))). lia.
Qed.

Lemma recordedOffset_aligned params base i p o :
  0 ≤ base → params !! i = Some p →
  recordedOffset params base i = Some o → (alignment p | o).
Proof.
  intros Hb Hi Ho. rewrite (recordedOffset_scan _ _ _ _ Hi (recordedOffset_not_proto _ _ _ _ _ Hi Ho)) in Ho.
  injection Ho as <-. apply padding_aligned; [apply alignment_pos|].
  pose proof (scanEnd_mono base (take i params)). lia.
Qed.

(** The slots of two positions do not overlap. *)
Lemma recordedOffset_lt params base i j p o o' :
  (i < j)%nat → params !! i = Some p →
  recordedOffset params base i = Some o →
  recordedOffset params base j = Some o' →
  o + paramSize p ≤ o'.
Proof.
  intros Hij Hi Ho Ho'.
  destruct (recordedOffset_is_Some _ _ _ _ Ho') as [q Hj].
  rewrite <- (scanEnd_take_S _ _ _ _ _ Hi Ho).
  rewrite (recordedOffset_scan _ _ _ _ Hj (recordedOffset_not_proto _ _ _ _ _ Hj Ho')) in Ho'. injection Ho' as <-.
  pose proof (scanEnd_take_le params base (S i) j ltac:(lia)).
  pose proof (padding_nonneg (alignment q) (alignment_pos q)
                (scanEnd base (take j params))). lia.
Qed.

(** Every slot ends before the total size. *)
Lemma recordedOffset_in_total params base i p o :
  params !! i = Some p →
  recordedOffset params base i = Some o →
  o + paramSize p ≤ size (calculateUniformLayout params base).
Proof.
  intros Hi Ho. rewrite <- (scanEnd_take_S _ _ _ _ _ Hi Ho), size_scanEnd.
  pose proof (scanEnd_take_total params base (S i)).
  pose proof (padding_nonneg 16 ltac:(lia) (scanEnd base params)). lia.
Qed.

Lemma recordedOffset_next params base i p q o :
  0 ≤ base → params !! i = Some p → params !! S i = Some q →
  id q ≠ "__proto__" →
  recordedOffset params base i = Some o →
  recordedOffset params base (S i) =
  Some (o + paramSize p + padding (alignment q) (o + paramSize p)).
Proof.
  intros Hb Hi Hq Hne Ho. rewrite (recordedOffset_scan _ _ _ _ Hq Hne).
  by rewrite (scanEnd_take_S _ _ _ _ _ Hi Ho).
Qed.

Lemma recordedOffset_defined params base i p :
  params !! i = Some p → id p ≠ "__proto__" →
  is_Some (recordedOffset params base i).
Proof. intros Hi Hne. rewrite (recordedOffset_scan _ _ _ _ Hi Hne). eauto. Qed.

(** Rounding up to a multiple of 16 is monotone, for cursors of any sign. *)
Lemma padding_16_mono c c' : c ≤ c' → c + padding 16 c ≤ c' + padding 16 c'.
Proof.
  intros Hle. unfold padding. Z.to_euclidean_division_equations. lia.
Qed.

Lemma scanEnd_round_le c ps :
  scanEnd c ps + padding 16 (scanEnd c ps)
  ≤ c + padding 16 c + 16 * Z.of_nat (length ps).
Proof.
  revert c. induction ps as [|p ps IH]; intros c; [simpl; lia|].
  cbn [scanEnd length]. etrans; [apply IH|].
  assert (c + padding (alignment p) c + paramSize p
          + padding 16 (c + padding (alignment p) c + paramSize p)
          ≤ c + padding 16 c + 16); [|lia].
  destruct (alignment_cases p) as [(_ & -> & ->)|(_ & -> & ->)];
    unfold padding; Z.to_euclidean_division_equations; lia.
Qed.

Lemma scanEnd_vectors c ps :
  Forall (λ p, isVec p = true) ps →
  scanEnd c ps + padding 16 (scanEnd c ps)
  = c + padding 16 c + 16 * Z.of_nat (length ps).
Proof.
  intros Hall. revert c. induction Hall as [|p ps Hp Hall IH]; intros c;
    [simpl; lia|].
  cbn [scanEnd length]. rewrite IH. unfold alignment, paramSize. rewrite Hp.
  unfold padding. Z.to_euclidean_division_equations. lia.
Qed.

(** Where the start offset plus 16 bytes for each parameter and 16 more
    stays within 2^53, the total size, every recorded offset and the end of
    every slot stay within 2^53, the range in which the sums of the source
    are exact. *)
Lemma layout_within_exact_integers params base :
  0 ≤ base → withinExactIntegers params base →
  let layout := calculateUniformLayout params base in
  base ≤ size layout ≤ 2 ^ 53 ∧
  (∀ i p o, params !! i = Some p → recordedOffset params base i = Some o →
     base ≤ o ∧ o + paramSize p ≤ 2 ^ 53) ∧
  (∀ k o, offsetMap layout !! k = Some o → base ≤ o ≤ 2 ^ 53).
Proof.
  intros Hb Hw layout. unfold withinExactIntegers in Hw.
  assert (base ≤ size layout ≤ 2 ^ 53) as Hsize.
  { unfold layout. rewrite size_scanEnd.
    pose proof (scanEnd_mono base params).
    pose proof (scanEnd_round_le base params).
    pose proof (padding_nonneg 16 ltac:(lia) (scanEnd base params)).
    pose proof (padding_nonneg 16 ltac:(lia) base). lia. }
  assert (∀ i p o, params !! i = Some p →
            recordedOffset params base i = Some o →
            base ≤ o ∧ o + paramSize p ≤ 2 ^ 53) as Hrec.
  { intros i p o Hi Ho.
    pose proof (recordedOffset_ge _ _ _ _ Ho).
    pose proof (recordedOffset_in_total _ _ _ _ _ Hi Ho). fold layout in H0.
    lia. }
  refine (conj Hsize (conj Hrec _)).
  intros k o Hk.
  destruct (offsetMap_entry _ _ _ _ Hk) as (i & p & Hi & _ & Ho & _).
  destruct (Hrec i p o Hi Ho). pose proof (paramSize_pos p). lia.
Qed.

(** Every offset of the returned map is a non-negative multiple of 4. *)
Lemma offsetMap_entry_word params base k o :
  0 ≤ base →
  offsetMap (calculateUniformLayout params base) !! k = Some o →
  0 ≤ o ∧ (4 | o) ∧ Z.rem o 4 = 0 ∧ 4 * Z.quot o 4 = o.
Proof.
  intros Hb Hk.
  destruct (offsetMap_entry _ _ _ _ Hk) as (i & p & Hi & <- & Ho & _).
  pose proof (recordedOffset_ge _ _ _ _ Ho).
  assert (4 | o) as Hd.
  { etrans; [apply (alignment_divides_4 p)|].
    apply (recordedOffset_aligned params base i p o Hb Hi Ho). }
  assert (Z.rem o 4 = 0) as Hr.
  { rewrite Z.rem_mod_nonneg by lia. apply Z.mod_divide; [lia | done]. }
  pose proof (Z.quot_rem' o 4). repeat split; try done; lia.
Qed.

Lemma offsetMap_floatOffset params base p o :
  0 ≤ base →
  offsetMap (calculateUniformLayout params base) !! id p = Some o →
  floatOffset (calculateUniformLayout params base) p = Some (Z.quot o 4).
Proof.
  intros Hb Hk. destruct (offsetMap_entry_word _ _ _ _ Hb Hk) as (_ & _ & Hr & _).
  unfold floatOffset. by rewrite Hk, Hr.
Qed.

Lemma size_words params base :
  0 ≤ base →
  4 * Z.quot (size (calculateUniformLayout params base)) 4 =
  size (calculateUniformLayout params base).
Proof.
  intros Hb. rewrite size_scanEnd.
  pose proof (scanEnd_mono base params).
  destruct (padding_aligned 16 ltac:(lia) (scanEnd base params) ltac:(lia))
    as [d Hd].
  rewrite Hd. replace (d * 16) with (4 * d * 4) by lia.
  rewrite Z.quot_mul by lia. lia.
Qed.

Lemma scanEnd_types c params params' :
  type <$> params' = type <$> params → scanEnd c params' = scanEnd c params.
Proof.
  revert c params'. induction params as [|p ps IH]; intros c [|p' ps'] Heq;
    try done.
  rewrite !fmap_cons in Heq. injection Heq as Ht Hrest.
  cbn [scanEnd]. unfold alignment, paramSize, isVec. rewrite Ht.
  by apply IH.
Qed.

Lemma NoDup_sameIdSameSize params :
  NoDup (id <$> params) → sameIdSameSize params.
Proof.
  intros Hnd p q Hp Hq Hid.
  apply list_elem_of_lookup in Hp as [i Hi].
  apply list_elem_of_lookup in Hq as [j Hj].
  assert (i = j) as ->.
  { eapply NoDup_lookup; [exact Hnd| |];
      rewrite list_lookup_fmap; [by rewrite Hi | by rewrite Hj, Hid]. }
  congruence.
Qed.

(** ** The layout contract *)

(** C1, as the code has it.  The offsets are assigned by a left-to-right
    scan.  For every parameter list none of whose ids is [__proto__] and
    every [base ≥ 0] with [base + 16 * count + 16 ≤ 2^53]: the first
    parameter has an offset, the smallest multiple of its alignment that is
    at least [base]; each later parameter has an offset, the smallest
    multiple of its alignment that is at least the previous offset plus the
    previous size; the total size is the smallest multiple of 16 that is at
    least the last offset plus the last size.  The alignment (and size) is 16
    for a colour or vector and 4 for a float.  The returned map holds the
    recorded offset of every parameter whose id no later parameter carries.
    For a float ["a"] followed by a colour or vector ["c"] at base 0:
    [a ↦ 0], [c ↦ 16], total 32. *)
Theorem layout_left_to_right_scan params base :
  0 ≤ base → withinExactIntegers params base → ordinaryIds params →
  let layout := calculateUniformLayout params base in
  (∀ p, params !! 0%nat = Some p →
     ∃ o, recordedOffset params base 0 = Some o ∧
          smallest_multiple_ge (alignment p) base o) ∧
  (∀ i p q, params !! i = Some p → params !! S i = Some q →
     ∃ o o', recordedOffset params base i = Some o ∧
             recordedOffset params base (S i) = Some o' ∧
             smallest_multiple_ge (alignment q) (o + paramSize p) o') ∧
  (∀ p, last params = Some p →
     ∃ o, recordedOffset params base (pred (length params)) = Some o ∧
          smallest_multiple_ge 16 (o + paramSize p) (size layout)) ∧
  (∀ p, (type p = "color" ∨ type p = "vec3" →
           alignment p = 16 ∧ paramSize p = 16) ∧
        (type p = "float" → alignment p = 4 ∧ paramSize p = 4)) ∧
  (∀ i p, params !! i = Some p → id p ∉ (id <$> drop (S i) params) →
     ∃ o, offsetMap layout !! id p = Some o ∧
          recordedOffset params base i = Some o) ∧
  (∀ va vc tc, tc = "color" ∨ tc = "vec3" →
     let example :=
       calculateUniformLayout
         [ {| id := "a"; type := "float"; value := va |};
           {| id := "c"; type := tc; value := vc |} ] 0 in
     offsetMap example !! "a" = Some 0 ∧
     offsetMap example !! "c" = Some 16 ∧
     size example = 32).
Proof.
  intros Hb _ Hord layout.
  refine (conj _ (conj _ (conj _ (conj _ (conj _ _))))).
  - intros p Hp. eexists. split.
    + apply (recordedOffset_scan _ _ _ _ Hp (ordinaryIds_lookup _ _ _ Hord Hp)).
    + simpl. apply padding_spec; [apply alignment_pos | done].
  - intros i p q Hp Hq.
    pose proof (ordinaryIds_lookup _ _ _ Hord Hp) as Hnp.
    pose proof (ordinaryIds_lookup _ _ _ Hord Hq) as Hnq.
    destruct (recordedOffset_defined params base i p Hp Hnp) as [o Ho].
    exists o. eexists. split; [done|].
    split; [apply (recordedOffset_next _ _ _ _ _ _ Hb Hp Hq Hnq Ho)|].
    apply padding_spec; [apply alignment_pos|].
    pose proof (recordedOffset_ge _ _ _ _ Ho). pose proof (paramSize_pos p). lia.
  - intros p Hlast. rewrite last_lookup in Hlast.
    pose proof (ordinaryIds_lookup _ _ _ Hord Hlast) as Hnp.
    destruct (recordedOffset_defined params base _ p Hlast Hnp) as [o Ho].
    exists o. split; [done|].
    pose proof (scanEnd_take_S _ _ _ _ _ Hlast Ho) as He.
    rewrite take_ge in He by lia.
    unfold layout. rewrite size_scanEnd, He.
    apply padding_spec; [lia|].
    pose proof (recordedOffset_ge _ _ _ _ Ho). pose proof (paramSize_pos p). lia.
  - intros p. split; intros Ht.
    + rewrite <- isVec_true in Ht. unfold alignment, paramSize. by rewrite Ht.
    + unfold alignment, paramSize. by rewrite (isVec_float _ Ht).
  - intros i p Hi Hl.
    pose proof (ordinaryIds_lookup _ _ _ Hord Hi) as Hnp.
    destruct (recordedOffset_defined params base i p Hi Hnp) as [o Ho].
    exists o. split; [|done]. unfold layout.
    by rewrite (offsetMap_lastOccurrence _ _ _ _ Hi Hl).
  - intros va vc tc [-> | ->]; vm_compute; done.
Qed.

Lemma layout_left_to_right_scan_witness :
  0 ≤ 48 ∧ withinExactIntegers presetParams 48 ∧ ordinaryIds presetParams ∧
  ∃ o o', recordedOffset presetParams 48 3 = Some o ∧
          recordedOffset presetParams 48 4 = Some o' ∧
          smallest_multiple_ge 16 (o + 4) o'.
Proof.
  assert (withinExactIntegers presetParams 48) as Hw.
  { vm_compute. discriminate. }
  assert (ordinaryIds presetParams) as Hord.
  { apply (bool_decide_unpack _). vm_compute. exact I. }
  split; [lia|]. split; [exact Hw|]. split; [exact Hord|].
  destruct (layout_left_to_right_scan presetParams 48 ltac:(lia) Hw Hord)
    as (_ & Hnext & _).
  apply (Hnext 3%nat
           {| id := "grainStrength"; type := "float"; value := Scalar 0.05 |}
           {| id := "baseColor"; type := "color"; value := Triple 1 1 1 |});
    reflexivity.
Defined.

(** C1, as stated, fails for a parameter whose id is [__proto__]: the
    assignment [offsetMap[param.id] = currentOffset] creates no entry, so
    the first parameter of the list has no offset. *)
Lemma layout_scan_proto_key :
  let params := [protoFloat] in
  let layout := calculateUniformLayout params 48 in
  0 ≤ 48 ∧
  offsetMap layout !! id protoFloat = None ∧
  ¬ (∀ p, params !! 0%nat = Some p →
       ∃ o, recordedOffset params 48 0 = Some o ∧
            smallest_multiple_ge (alignment p) 48 o).
Proof.
  intros params layout. split; [lia|]. split; [reflexivity|].
  intros H. destruct (H protoFloat eq_refl) as (o & Ho & _).
  vm_compute in Ho. discriminate Ho.
Qed.

(** C2, as the code has it.  For every parameter list none of whose ids is
    [__proto__] and every [base ≥ 0] with [base + 16 * count + 16 ≤ 2^53],
    divisible by 4 or not: every parameter has a recorded offset; for a
    float it is a multiple of 4 and the float owns the 4 bytes from it; for a
    colour or vector it is a multiple of 16 and the parameter owns the 16
    bytes from it.  Owning a slot means that it starts at or after [base],
    ends at or before the total size, and ends at or before the offset of
    every later parameter.  Every offset of the returned map is a
    non-negative multiple of 4, every parameter has one, and the division by
    4 of [writeParamsToBuffer] is exact for it. *)
Theorem layout_offsets_aligned params base :
  0 ≤ base → withinExactIntegers params base → ordinaryIds params →
  let layout := calculateUniformLayout params base in
  (∀ i p, params !! i = Some p →
     ∃ o, recordedOffset params base i = Some o ∧
       (type p = "float" → (4 | o) ∧ paramSize p = 4) ∧
       (type p = "color" ∨ type p = "vec3" → (16 | o) ∧ paramSize p = 16) ∧
       base ≤ o ∧
       o + paramSize p ≤ size layout ∧
       (∀ j q, (i < j)%nat → params !! j = Some q →
          ∃ o', recordedOffset params base j = Some o' ∧
                o + paramSize p ≤ o')) ∧
  (∀ k o, offsetMap layout !! k = Some o →
     0 ≤ o ∧ (4 | o) ∧ Z.rem o 4 = 0 ∧ 4 * Z.quot o 4 = o) ∧
  (∀ p, p ∈ params →
     ∃ o, offsetMap layout !! id p = Some o ∧
          floatOffset layout p = Some (Z.quot o 4) ∧
          4 * Z.quot o 4 = o).
Proof.
  intros Hb _ Hord layout.
  refine (conj _ (conj _ _)).
  - intros i p Hi.
    pose proof (ordinaryIds_lookup _ _ _ Hord Hi) as Hnp.
    destruct (recordedOffset_defined params base i p Hi Hnp) as [o Ho].
    exists o. split; [done|].
    pose proof (recordedOffset_aligned _ _ _ _ _ Hb Hi Ho) as Hal.
    refine (conj _ (conj _ (conj _ (conj _ _)))).
    + intros Ht. unfold alignment, paramSize in *.
      by rewrite (isVec_float _ Ht) in *.
    + intros Ht. rewrite <- isVec_true in Ht. unfold alignment, paramSize in *.
      by rewrite Ht in *.
    + apply (recordedOffset_ge _ _ _ _ Ho).
    + apply (recordedOffset_in_total _ _ _ _ _ Hi Ho).
    + intros j q Hij Hj.
      pose proof (ordinaryIds_lookup _ _ _ Hord Hj) as Hnq.
      destruct (recordedOffset_defined params base j q Hj Hnq) as [o' Ho'].
      exists o'. split; [done|].
      apply (recordedOffset_lt _ _ _ _ _ _ _ Hij Hi Ho Ho').
  - intros k o. by apply offsetMap_entry_word.
  - intros p Hp.
    assert (id p ∈ (id <$> params)) as Hin.
    { apply list_elem_of_fmap. eauto. }
    destruct (last_occurrence_exists _ _ Hin) as (i & q & Hi & Hid & Hl).
    pose proof (ordinaryIds_lookup _ _ _ Hord Hi) as Hnq.
    destruct (recordedOffset_defined params base i q Hi Hnq) as [o Ho].
    assert (offsetMap layout !! id p = Some o) as Hmap.
    { rewrite <- Hid in Hl |- *. unfold layout.
      by rewrite (offsetMap_lastOccurrence _ _ _ _ Hi Hl). }
    exists o. split; [done|].
    split; [by apply offsetMap_floatOffset|].
    by destruct (offsetMap_entry_word _ _ _ _ Hb Hmap) as (_ & _ & _ & ?).
Qed.

Lemma layout_offsets_aligned_witness :
  0 ≤ 3 ∧ withinExactIntegers presetParams 3 ∧ ordinaryIds presetParams ∧
  ∀ p, p ∈ presetParams →
    ∃ o, offsetMap (calculateUniformLayout presetParams 3) !! id p = Some o ∧
         floatOffset (calculateUniformLayout presetParams 3) p
           = Some (Z.quot o 4) ∧
         4 * Z.quot o 4 = o.
Proof.
  assert (withinExactIntegers presetParams 3) as Hw.
  { vm_compute. discriminate. }
  assert (ordinaryIds presetParams) as Hord.
  { apply (bool_decide_unpack _). vm_compute. exact I. }
  split; [lia|]. split; [exact Hw|]. split; [exact Hord|].
  destruct (layout_offsets_aligned presetParams 3 ltac:(lia) Hw Hord)
    as (_ & _ & Hdiv).
  exact Hdiv.
Defined.

(** C2, as stated, fails for a float whose id is [__proto__]: no offset is
    recorded for it, the map holds none, and the division
    [layout.offsetMap[param.id] / 4] of the writer yields no word index. *)
Lemma layout_proto_no_word_index :
  let params := [protoFloat] in
  let layout := calculateUniformLayout params 48 in
  0 ≤ 48 ∧ type protoFloat = "float" ∧
  recordedOffset params 48 0 = None ∧
  floatOffset layout protoFloat = None ∧
  ¬ (∀ p, p ∈ params →
       ∃ o, offsetMap layout !! id p = Some o ∧
            floatOffset layout p = Some (Z.quot o 4)).
Proof.
  intros params layout. split; [lia|]. split; [reflexivity|].
  split; [reflexivity|]. split; [reflexivity|].
  intros H. destruct (H protoFloat) as (o & Ho & _).
  - apply list_elem_of_singleton. reflexivity.
  - vm_compute in Ho. discriminate Ho.
Qed.

(** C3, as the code has it.  With no parameters and a base of 48 the total
    size is 48: the base is already a multiple of 16 and no padding is
    added. *)
Theorem layout_empty_48 : size (calculateUniformLayout [] 48) = 48.
Proof. reflexivity. Qed.

(** C3, as stated, fails: the total size in that case is not 64. *)
Lemma layout_empty_48_not_64 : size (calculateUniformLayout [] 48) ≠ 64.
Proof. intros H. vm_compute in H. discriminate H. Qed.

(** The end of the scan over a list without colours or vectors. *)
Lemma scanEnd_scalars c ps :
  0 ≤ c → Forall (λ p, isVec p = false) ps →
  scanEnd c ps =
  match ps with
  | [] => c
  | _ => c + padding 4 c + 4 * Z.of_nat (length ps)
  end.
Proof.
  intros Hc Hall. revert c Hc.
  induction Hall as [|p ps Hp Hall IH]; intros c Hc; [done|].
  cbn [scanEnd]. unfold alignment, paramSize. rewrite Hp.
  pose proof (padding_nonneg 4 ltac:(lia) c) as Hpad.
  rewrite IH by lia. destruct ps as [|q ps]; [simpl; lia|].
  rewrite (padding_of_multiple 4 ltac:(lia) (c + padding 4 c + 4)); [|lia|].
  - cbn [length]. lia.
  - apply Z.divide_add_r; [apply padding_aligned; lia | by exists 1].
Qed.

Lemma scanEnd_scalars_round c ps :
  Forall (λ p, isVec p = false) ps →
  scanEnd c ps + padding 4 (scanEnd c ps)
  = c + padding 4 c + 4 * Z.of_nat (length ps).
Proof.
  intros Hall. revert c. induction Hall as [|p ps Hp Hall IH]; intros c;
    [simpl; lia|].
  cbn [scanEnd length]. rewrite IH. unfold alignment, paramSize. rewrite Hp.
  unfold padding. Z.to_euclidean_division_equations. lia.
Qed.

(** In a list of floats the offset recorded at position [i] is the base
    rounded up to a multiple of 4, plus [4 * i]. *)
Lemma recordedOffset_scalars params base i p :
  Forall (λ p, isVec p = false) params →
  params !! i = Some p → id p ≠ "__proto__" →
  recordedOffset params base i
  = Some (base + padding 4 base + 4 * Z.of_nat i).
Proof.
  intros Hall Hi Hne. rewrite (recordedOffset_scan _ _ _ _ Hi Hne).
  rewrite Forall_lookup in Hall. unfold alignment. rewrite (Hall _ _ Hi).
  rewrite scanEnd_scalars_round.
  - rewrite length_take. apply lookup_lt_Some in Hi.
    do 2 f_equal. lia.
  - apply Forall_lookup. intros n q Hn. apply (Hall n).
    apply lookup_take_Some in Hn. tauto.
Qed.

(** In a list of colours and vectors the offset recorded at position [i] is
    the base rounded up to a multiple of 16, plus [16 * i]. *)
Lemma recordedOffset_vectors params base i p :
  Forall (λ p, isVec p = true) params →
  params !! i = Some p → id p ≠ "__proto__" →
  recordedOffset params base i
  = Some (base + padding 16 base + 16 * Z.of_nat i).
Proof.
  intros Hall Hi Hne. rewrite (recordedOffset_scan _ _ _ _ Hi Hne).
  rewrite Forall_lookup in Hall. unfold alignment. rewrite (Hall _ _ Hi).
  rewrite scanEnd_vectors.
  - rewrite length_take. apply lookup_lt_Some in Hi.
    do 2 f_equal. lia.
  - apply Forall_lookup. intros n q Hn. apply (Hall n).
    apply lookup_take_Some in Hn. tauto.
Qed.

(** C4, as the code has it.  For every list of float parameters (the empty
    list included) and every [base ≥ 0] with [base + 16 * count + 16 ≤ 2^53]:
    the total size is the smallest multiple of 16 that is at least
    [base + 4 * count], and the offset recorded at position [i], for an id
    other than [__proto__], is the base rounded up to a multiple of 4 plus
    [4 * i].  When the ids are unique and none of them is [__proto__], these
    are the offsets of the returned map: every parameter has one, the offsets
    of consecutive parameters differ by exactly 4, and the offsets increase
    strictly along the list. *)
Theorem layout_scalars params base :
  0 ≤ base → withinExactIntegers params base →
  Forall (λ p, type p = "float") params →
  let layout := calculateUniformLayout params base in
  smallest_multiple_ge 16 (base + 4 * Z.of_nat (length params)) (size layout) ∧
  (∀ i p, params !! i = Some p → id p ≠ "__proto__" →
     recordedOffset params base i
     = Some (base + padding 4 base + 4 * Z.of_nat i)) ∧
  (NoDup (id <$> params) → ordinaryIds params →
     (∀ i p, params !! i = Some p →
        offsetMap layout !! id p
        = Some (base + padding 4 base + 4 * Z.of_nat i)) ∧
     (∀ i p q, params !! i = Some p → params !! S i = Some q →
        ∃ o, offsetMap layout !! id p = Some o ∧
             offsetMap layout !! id q = Some (o + 4)) ∧
     (∀ i j p q, (i < j)%nat → params !! i = Some p → params !! j = Some q →
        ∃ o o', offsetMap layout !! id p = Some o ∧
                offsetMap layout !! id q = Some o' ∧ o < o')).
Proof.
  intros Hb _ Hall layout.
  assert (Forall (λ p, isVec p = false) params) as Hall'.
  { eapply Forall_impl; [exact Hall|]. intros p. apply isVec_float. }
  refine (conj _ (conj _ _)).
  - unfold layout. rewrite size_scanEnd.
    pose proof (padding_nonneg 16 ltac:(lia) (scanEnd base params)).
    pose proof (padding_nonneg 4 ltac:(lia) base).
    pose proof (scanEnd_mono base params).
    pose proof (scanEnd_scalars base params Hb Hall') as He.
    split; [apply padding_aligned; lia|]. split.
    + rewrite He in *. destruct params; cbn [length] in *; lia.
    + intros m' Hd Hm'. apply padding_least; [lia | lia | done |].
      rewrite He. destruct params as [|p ps]; [cbn [length] in Hm'; lia|].
      assert (base + padding 4 base ≤ m' - 4 * Z.of_nat (length (p :: ps))); [|lia].
      apply padding_least; [lia | done | | lia].
      destruct Hd as [d ->]. exists (4 * d - Z.of_nat (length (p :: ps))). lia.
  - intros i p Hi Hkey. apply (recordedOffset_scalars _ _ _ _ Hall' Hi Hkey).
  - intros Hnd Hord.
    assert (∀ i p, params !! i = Some p →
       offsetMap layout !! id p
       = Some (base + padding 4 base + 4 * Z.of_nat i)) as Hmap.
    { intros i p Hi. unfold layout. rewrite (offsetMap_NoDup _ _ _ _ Hnd Hi).
      apply (recordedOffset_scalars _ _ _ _ Hall' Hi
               (ordinaryIds_lookup _ _ _ Hord Hi)). }
    refine (conj Hmap (conj _ _)).
    + intros i p q Hi Hq. eexists. split; [by apply Hmap|].
      rewrite (Hmap _ _ Hq). f_equal. lia.
    + intros i j p q Hij Hi Hj. eexists. eexists.
      split; [by apply Hmap|]. split; [by apply (Hmap j)|]. lia.
Qed.

Lemma layout_scalars_witness :
  0 ≤ 48 ∧ withinExactIntegers (take 4 presetParams) 48 ∧
  Forall (λ p, type p = "float") (take 4 presetParams) ∧
  NoDup (id <$> take 4 presetParams) ∧
  ordinaryIds (take 4 presetParams) ∧
  offsetMap (calculateUniformLayout (take 4 presetParams) 48) !! "roughness"
    = Some 56 ∧
  smallest_multiple_ge 16 (48 + 4 * 4)
    (size (calculateUniformLayout (take 4 presetParams) 48)).
Proof.
  assert (withinExactIntegers (take 4 presetParams) 48) as Hw.
  { vm_compute. discriminate. }
  assert (ordinaryIds (take 4 presetParams)) as Hord.
  { apply (bool_decide_unpack _). vm_compute. exact I. }
  assert (NoDup (id <$> take 4 presetParams)) as Hnd.
  { apply (bool_decide_unpack _). vm_compute. exact I. }
  assert (Forall (λ p, type p = "float") (take 4 presetParams)) as Hall.
  { repeat constructor. }
  split; [lia|]. split; [exact Hw|]. split; [exact Hall|].
  split; [exact Hnd|]. split; [exact Hord|].
  destruct (layout_scalars (take 4 presetParams) 48 ltac:(lia) Hw Hall)
    as (Htotal & _ & Hunique).
  destruct (Hunique Hnd Hord) as (Hmap & _).
  split; [|exact Htotal].
  apply (Hmap 2%nat
           {| id := "roughness"; type := "float"; value := Scalar 0.05 |}).
  reflexivity.
Defined.

(** C4, as stated, fails for a list of floats that repeats an id: for the
    floats [b; a; a] at base 48 the returned offsets are [b ↦ 48] and
    [a ↦ 56], so the offsets of the first two parameters differ by 8 and
    those of the last two are equal. *)
Lemma layout_scalars_repeated_id :
  let layout := calculateUniformLayout repeatedFloats 48 in
  0 ≤ 48 ∧ repeatedFloats ≠ [] ∧
  Forall (λ p, type p = "float") repeatedFloats ∧
  offsetMap layout !! "b" = Some 48 ∧ offsetMap layout !! "a" = Some 56 ∧
  ¬ (∀ i p q o o', repeatedFloats !! i = Some p →
       repeatedFloats !! S i = Some q →
       offsetMap layout !! id p = Some o →
       offsetMap layout !! id q = Some o' → o' = o + 4) ∧
  ¬ (∀ i j p q o o', (i < j)%nat → repeatedFloats !! i = Some p →
       repeatedFloats !! j = Some q →
       offsetMap layout !! id p = Some o →
       offsetMap layout !! id q = Some o' → o < o').
Proof.
  intros layout. split; [lia|]. split; [discriminate|].
  split; [repeat constructor|].
  split; [reflexivity|]. split; [reflexivity|]. split.
  - intros H.
    specialize (H 0%nat _ _ 48 56 eq_refl eq_refl eq_refl eq_refl).
    discriminate H.
  - intros H.
    specialize (H 1%nat 2%nat _ _ 56 56 ltac:(lia) eq_refl eq_refl
                  eq_refl eq_refl).
    lia.
Qed.

(** C5, as the code has it.  For every list of colour and vector parameters
    and every [base ≥ 0] with [base + 16 * count + 16 ≤ 2^53]: every offset
    of the returned map is a multiple of 16, every parameter whose id is not
    [__proto__] has one, and the offset recorded at position [i], for such an
    id, is the base rounded up to a multiple of 16 plus [16 * i].  When the
    ids are unique and none of them is [__proto__], these are the offsets of
    the returned map, and the offsets of consecutive parameters differ by
    exactly 16. *)
Theorem layout_vectors params base :
  0 ≤ base → withinExactIntegers params base →
  Forall (λ p, type p = "color" ∨ type p = "vec3") params →
  let layout := calculateUniformLayout params base in
  (∀ k o, offsetMap layout !! k = Some o → (16 | o)) ∧
  (∀ p, p ∈ params → id p ≠ "__proto__" →
     ∃ o, offsetMap layout !! id p = Some o ∧ (16 | o)) ∧
  (∀ i p, params !! i = Some p → id p ≠ "__proto__" →
     recordedOffset params base i
     = Some (base + padding 16 base + 16 * Z.of_nat i)) ∧
  (NoDup (id <$> params) → ordinaryIds params →
     (∀ i p, params !! i = Some p →
        offsetMap layout !! id p
        = Some (base + padding 16 base + 16 * Z.of_nat i)) ∧
     (∀ i p q, params !! i = Some p → params !! S i = Some q →
        ∃ o, offsetMap layout !! id p = Some o ∧
             offsetMap layout !! id q = Some (o + 16))).
Proof.
  intros Hb _ Hall layout.
  assert (Forall (λ p, isVec p = true) params) as Hall'.
  { eapply Forall_impl; [exact Hall|]. intros p. apply isVec_true. }
  assert (∀ i : nat, (16 | base + padding 16 base + 16 * Z.of_nat i)) as Hdiv.
  { intros i. apply Z.divide_add_r; [apply padding_aligned; lia|].
    by exists (Z.of_nat i); lia. }
  assert (∀ k o, offsetMap layout !! k = Some o → (16 | o)) as Hentries.
  { intros k o Hk.
    destruct (offsetMap_entry _ _ _ _ Hk) as (i & p & Hi & _ & Ho & _).
    rewrite (recordedOffset_vectors _ _ _ _ Hall' Hi
               (recordedOffset_not_proto _ _ _ _ _ Hi Ho)) in Ho.
    injection Ho as <-. apply Hdiv. }
  refine (conj Hentries (conj _ (conj _ _))).
  - intros p Hp Hkey.
    assert (id p ∈ (id <$> params)) as Hin.
    { apply list_elem_of_fmap. eauto. }
    destruct (last_occurrence_exists _ _ Hin) as (i & q & Hi & Hid & Hl).
    rewrite <- Hid in Hl, Hkey.
    destruct (recordedOffset_defined params base i q Hi Hkey) as [o Ho].
    assert (offsetMap layout !! id p = Some o) as Hmap.
    { rewrite <- Hid. unfold layout.
      by rewrite (offsetMap_lastOccurrence _ _ _ _ Hi Hl). }
    exists o. split; [done|]. by eapply Hentries.
  - intros i p Hi Hkey. apply (recordedOffset_vectors _ _ _ _ Hall' Hi Hkey).
  - intros Hnd Hord.
    assert (∀ i p, params !! i = Some p →
       offsetMap layout !! id p
       = Some (base + padding 16 base + 16 * Z.of_nat i)) as Hmap.
    { intros i p Hi. unfold layout. rewrite (offsetMap_NoDup _ _ _ _ Hnd Hi).
      apply (recordedOffset_vectors _ _ _ _ Hall' Hi
               (ordinaryIds_lookup _ _ _ Hord Hi)). }
    refine (conj Hmap _).
    intros i p q Hi Hq. eexists. split; [by apply Hmap|].
    rewrite (Hmap _ _ Hq). f_equal. lia.
Qed.

Lemma layout_vectors_witness :
  0 ≤ 48 ∧ withinExactIntegers vectorParams 48 ∧
  Forall (λ p, type p = "color" ∨ type p = "vec3") vectorParams ∧
  NoDup (id <$> vectorParams) ∧ ordinaryIds vectorParams ∧
  ∀ i p q, vectorParams !! i = Some p → vectorParams !! S i = Some q →
    ∃ o, offsetMap (calculateUniformLayout vectorParams 48) !! id p = Some o ∧
         offsetMap (calculateUniformLayout vectorParams 48) !! id q
           = Some (o + 16).
Proof.
  assert (withinExactIntegers vectorParams 48) as Hw.
  { vm_compute. discriminate. }
  assert (ordinaryIds vectorParams) as Hord.
  { apply (bool_decide_unpack _). vm_compute. exact I. }
  assert (NoDup (id <$> vectorParams)) as Hnd.
  { apply (bool_decide_unpack _). vm_compute. exact I. }
  assert (Forall (λ p, type p = "color" ∨ type p = "vec3") vectorParams)
    as Hall.
  { constructor; [by left | constructor; [by right | constructor]]. }
  split; [lia|]. split; [exact Hw|]. split; [exact Hall|].
  split; [exact Hnd|]. split; [exact Hord|].
  destruct (layout_vectors vectorParams 48 ltac:(lia) Hw Hall)
    as (_ & _ & _ & Hunique).
  destruct (Hunique Hnd Hord) as (_ & Hnext).
  exact Hnext.
Defined.

(** C5, as stated, fails for a list of colours and vectors that repeats an
    id: for [color b; color a; vec3 a] at base 48 the returned offsets are
    [b ↦ 48] and [a ↦ 80], so the offsets of the first two parameters differ
    by 32 and those of the last two are equal. *)
Lemma layout_vectors_repeated_id :
  let layout := calculateUniformLayout repeatedColours 48 in
  0 ≤ 48 ∧ repeatedColours ≠ [] ∧
  Forall (λ p, type p = "color" ∨ type p = "vec3") repeatedColours ∧
  offsetMap layout !! "b" = Some 48 ∧ offsetMap layout !! "a" = Some 80 ∧
  ¬ (∀ i p q o o', repeatedColours !! i = Some p →
       repeatedColours !! S i = Some q →
       offsetMap layout !! id p = Some o →
       offsetMap layout !! id q = Some o' → o' = o + 16).
Proof.
  intros layout. split; [lia|]. split; [discriminate|].
  split; [constructor; [by left | constructor; [by left |
            constructor; [by right | constructor]]]|].
  split; [reflexivity|]. split; [reflexivity|].
  intros H.
  specialize (H 0%nat _ _ 48 80 eq_refl eq_refl eq_refl eq_refl).
  discriminate H.
Qed.

(** ** The writer: stores into the typed array *)

Lemma store_length data index x : length (store data index x) = length data.
Proof.
  unfold store. destruct index as [i|]; [|done].
  destruct (0 <=? i); [apply length_insert | done].
Qed.

Lemma store_lookup_ne data index x (j : nat) :
  index ≠ Some (Z.of_nat j) → store data index x !! j = data !! j.
Proof.
  intros Hne. unfold store. destruct index as [i|]; [|done].
  destruct (0 <=? i) eqn:Hi; [|done].
  apply list_lookup_insert_ne. intros <-. apply Hne. f_equal. lia.
Qed.

Lemma store_lookup_eq data (j : nat) x :
  (j < length data)%nat →
  store data (Some (Z.of_nat j)) x !! j = Some (fround x).
Proof.
  intros Hj. unfold store.
  replace (0 <=? Z.of_nat j) with true by lia.
  rewrite Nat2Z.id. by apply list_lookup_insert_eq.
Qed.

Lemma fold_store_length (l : list (option Z * float)) data :
  length (fold_left (λ d a, store d a.1 a.2) l data) = length data.
Proof.
  revert data. induction l as [|a l IH]; intros data; simpl; [done|].
  by rewrite IH, store_length.
Qed.

Lemma fold_store_frame (l : list (option Z * float)) data (j : nat) :
  (∀ a, a ∈ l → a.1 ≠ Some (Z.of_nat j)) →
  fold_left (λ d a, store d a.1 a.2) l data !! j = data !! j.
Proof.
  revert data. induction l as [|a l IH]; intros data Hl; simpl; [done|].
  rewrite IH by (intros b Hb; apply Hl; by right).
  apply store_lookup_ne, Hl. by left.
Qed.

Lemma writeStep_length layout data p :
  length (writeStep layout data p) = length data.
Proof. apply fold_store_length. Qed.

Lemma writeParamsToBuffer_length data params layout :
  length (writeParamsToBuffer data params layout) = length data.
Proof.
  unfold writeParamsToBuffer. revert data.
  induction params as [|p ps IH]; intros data; simpl; [done|].
  by rewrite IH, writeStep_length.
Qed.

Lemma writeParamsToBuffer_frame data params layout (j : nat) :
  (∀ p a, p ∈ params → a ∈ assignments layout p → a.1 ≠ Some (Z.of_nat j)) →
  writeParamsToBuffer data params layout !! j = data !! j.
Proof.
  unfold writeParamsToBuffer. revert data.
  induction params as [|p ps IH]; intros data Hl; simpl; [done|].
  rewrite IH by (intros q a Hq; apply Hl; by right).
  apply fold_store_frame. intros a. apply Hl. by left.
Qed.

(** The indices of the assignments of one parameter: the word of its offset
    for a float, that word and the next two for a colour or vector. *)
Lemma assignments_index layout p a :
  a ∈ assignments layout p →
  (type p = "float" ∧ a.1 = floatOffset layout p) ∨
  (isVec p = true ∧
   (a.1 = floatOffset layout p ∨ a.1 = indexPlus (floatOffset layout p) 1 ∨
    a.1 = indexPlus (floatOffset layout p) 2)).
Proof.
  unfold assignments. destruct (String.eqb (type p) "float") eqn:Hf.
  - apply String.eqb_eq in Hf. intros ->%list_elem_of_singleton. by left.
  - destruct (isVec p) eqn:Hv; [|by intros ?%elem_of_nil].
    intros Ha. right. split; [done|].
    repeat (apply elem_of_cons in Ha as [->|Ha]; [by auto|]).
    by apply elem_of_nil in Ha.
Qed.

Lemma floatOffset_Some layout p w :
  floatOffset layout p = Some w →
  ∃ o, offsetMap layout !! id p = Some o ∧ o = 4 * w.
Proof.
  unfold floatOffset. destruct (offsetMap layout !! id p) as [o|]; [|done].
  destruct (Z.rem o 4 =? 0) eqn:Hr; [|done]. intros [= <-].
  exists o. split; [done|]. pose proof (Z.quot_rem' o 4). lia.
Qed.

(** An assignment with an integer index lands in the slot of the parameter's
    map entry: at most two words after its first word, and inside the bytes
    of the parameter's own size. *)
Lemma assignments_word layout p a (j : Z) :
  a ∈ assignments layout p → a.1 = Some j →
  ∃ o, offsetMap layout !! id p = Some o ∧
       ((type p = "float" ∧ 4 * j = o) ∨
        ((type p = "color" ∨ type p = "vec3") ∧
         (4 * j = o ∨ 4 * j = o + 4 ∨ 4 * j = o + 8))).
Proof.
  intros Ha Hj.
  destruct (assignments_index _ _ _ Ha) as [[Ht Hi]|[Hv Hi]].
  - rewrite Hj in Hi. symmetry in Hi.
    destruct (floatOffset_Some _ _ _ Hi) as (o & Ho & ->). eauto.
  - apply isVec_true in Hv. rewrite Hj in Hi.
    destruct (floatOffset layout p) as [w|] eqn:Hw;
      [|by destruct Hi as [|[|]]].
    destruct (floatOffset_Some _ _ _ Hw) as (o & Ho & ->).
    exists (4 * w). split; [done|]. right. split; [done|].
    simpl in Hi. destruct Hi as [[= ->]|[[= ->]|[= ->]]]; lia.
Qed.

Lemma writeParamsToBuffer_frame_words data params layout (j : nat) :
  (∀ p, p ∈ params → ¬ valueWord layout p j) →
  writeParamsToBuffer data params layout !! j = data !! j.
Proof.
  intros Hj. apply writeParamsToBuffer_frame. intros p a Hp Ha Hidx.
  apply (Hj p Hp). unfold valueWord.
  destruct (assignments_word _ _ _ _ Ha Hidx) as (o & Ho & Hcases). eauto.
Qed.

Lemma writeParamsToBuffer_app data ps qs layout :
  writeParamsToBuffer data (ps ++ qs) layout =
  writeParamsToBuffer (writeParamsToBuffer data ps layout) qs layout.
Proof. unfold writeParamsToBuffer. apply fold_left_app. Qed.

Lemma writeStep_float layout data p (w : nat) :
  type p = "float" → floatOffset layout p = Some (Z.of_nat w) →
  (w < length data)%nat →
  writeStep layout data p !! w = Some (fround (toNumber (value p))).
Proof.
  intros Ht Hw Hlen. unfold writeStep, assignments. rewrite Ht, Hw. simpl.
  by apply store_lookup_eq.
Qed.

Lemma writeStep_vec layout data p (w : nat) :
  isVec p = true → floatOffset layout p = Some (Z.of_nat w) →
  (w + 2 < length data)%nat →
  writeStep layout data p !! w = Some (fround (component (value p) 0)) ∧
  writeStep layout data p !! (w + 1)%nat =
    Some (fround (component (value p) 1)) ∧
  writeStep layout data p !! (w + 2)%nat =
    Some (fround (component (value p) 2)).
Proof.
  intros Hv Hw Hlen. unfold writeStep, assignments.
  assert (String.eqb (type p) "float" = false) as ->.
  { apply String.eqb_neq. intros Ht. by rewrite (isVec_float _ Ht) in Hv. }
  rewrite Hv, Hw. cbn [fold_left indexPlus fst snd].
  replace (Z.of_nat w + 1) with (Z.of_nat (w + 1)) by lia.
  replace (Z.of_nat w + 2) with (Z.of_nat (w + 2)) by lia.
  repeat split.
  - rewrite !store_lookup_ne by (intros [=]; lia).
    apply store_lookup_eq. lia.
  - rewrite store_lookup_ne by (intros [=]; lia).
    apply store_lookup_eq. rewrite store_length. lia.
  - apply store_lookup_eq. rewrite !store_length. lia.
Qed.

(** With unique ids, a word holding a value of a parameter lies in the slot
    recorded for that parameter. *)
Lemma valueWord_slot params base q (j : nat) :
  NoDup (id <$> params) → q ∈ params →
  valueWord (calculateUniformLayout params base) q j →
  ∃ i o, params !! i = Some q ∧ recordedOffset params base i = Some o ∧
         o ≤ 4 * Z.of_nat j ≤ o + 8 ∧ 4 * Z.of_nat j < o + paramSize q.
Proof.
  intros Hnd Hq (o & Ho & Hcases).
  apply list_elem_of_lookup in Hq as [i Hi].
  rewrite (offsetMap_NoDup _ _ _ _ Hnd Hi) in Ho.
  exists i, o. split; [done|]. split; [done|].
  destruct Hcases as [[Ht Hj]|[Ht Hj]].
  - pose proof (paramSize_pos q). lia.
  - apply isVec_true in Ht. unfold paramSize. rewrite Ht. lia.
Qed.

(** A word holding a value of a parameter starts at most two words after
    the offset recorded at the last occurrence of the parameter's id. *)
Lemma valueWord_recorded params base q (j : nat) :
  valueWord (calculateUniformLayout params base) q j →
  ∃ i q' o, params !! i = Some q' ∧ id q' = id q ∧
            recordedOffset params base i = Some o ∧
            o ≤ 4 * Z.of_nat j ≤ o + 8 ∧
            (type q = "float" → 4 * Z.of_nat j = o).
Proof.
  intros (o & Ho & Hcases).
  destruct (offsetMap_entry _ _ _ _ Ho) as (i & q' & Hi & Hid & Hrec & _).
  exists i, q', o. repeat split; try done.
  - destruct Hcases as [[_ ?]|[_ ?]]; lia.
  - destruct Hcases as [[_ ?]|[_ ?]]; lia.
  - intros Ht. destruct Hcases as [[_ ?]|[[Hc|Hc] _]]; [done| |];
      rewrite Ht in Hc; discriminate Hc.
Qed.

(** In the layout of a list with unique ids, the words of the slot recorded
    at position [i] hold, after the whole write, what the iteration of
    position [i] left there. *)
Lemma writeParamsToBuffer_position data params base i p o (j : nat) :
  NoDup (id <$> params) →
  params !! i = Some p → recordedOffset params base i = Some o →
  o ≤ 4 * Z.of_nat j < o + paramSize p →
  let layout := calculateUniformLayout params base in
  writeParamsToBuffer data params layout !! j =
  writeStep layout (writeParamsToBuffer data (take i params) layout) p !! j.
Proof.
  intros Hnd Hi Ho Hj layout.
  rewrite <- (take_drop_middle params i p Hi) at 1.
  rewrite writeParamsToBuffer_app. unfold writeParamsToBuffer at 1.
  cbn [fold_left]. apply writeParamsToBuffer_frame_words.
  intros q Hq Hword.
  assert (q ∈ params) as Hq' by (by eapply subseteq_drop).
  destruct (valueWord_slot _ _ _ _ Hnd Hq' Hword) as (i' & o' & Hi' & Ho' & Hb & _).
  apply list_elem_of_lookup in Hq as [n Hn]. rewrite lookup_drop in Hn.
  assert (i' = (S i + n)%nat) as ->.
  { eapply NoDup_lookup; [exact Hnd| |];
      rewrite list_lookup_fmap; [by rewrite Hi' | by rewrite Hn]. }
  pose proof (recordedOffset_lt params base i (S i + n) p o o'
                ltac:(lia) Hi Ho Ho'). lia.
Qed.

(** ** The serialization contract *)

(** C6, as the code has it.  For every parameter list with unique ids, none
    of them [__proto__], every [base ≥ 0] and every buffer of at least
    [totalSizeBytes / 4] words: after the write with the computed layout,
    every parameter has an offset in the map, the word at [offsetOf[id] / 4]
    holds the value of each float parameter rounded to binary32, and the
    three words from [offsetOf[id] / 4] hold the three components of each
    colour or vector parameter, each rounded to binary32. *)
Theorem write_read_roundtrip data params base :
  0 ≤ base →
  NoDup (id <$> params) → ordinaryIds params →
  let layout := calculateUniformLayout params base in
  Z.quot (size layout) 4 ≤ Z.of_nat (length data) →
  let out := writeParamsToBuffer data params layout in
  ∀ p, p ∈ params →
    ∃ o, offsetMap layout !! id p = Some o ∧ 0 ≤ o ∧ Z.rem o 4 = 0 ∧
      (type p = "float" → ∀ x, value p = Scalar x →
         out !! Z.to_nat (Z.quot o 4) = Some (fround x)) ∧
      (type p = "color" ∨ type p = "vec3" → ∀ r g b, value p = Triple r g b →
         out !! Z.to_nat (Z.quot o 4) = Some (fround r) ∧
         out !! Z.to_nat (Z.quot o 4 + 1) = Some (fround g) ∧
         out !! Z.to_nat (Z.quot o 4 + 2) = Some (fround b)).
Proof.
  intros Hb Hnd Hord layout Hlen out p Hp.
  apply list_elem_of_lookup in Hp as [i Hi].
  destruct (recordedOffset_defined params base i p Hi
              (ordinaryIds_lookup _ _ _ Hord Hi)) as [o Ho].
  pose proof (offsetMap_NoDup _ base _ _ Hnd Hi) as Hmap. rewrite Ho in Hmap.
  destruct (offsetMap_entry_word _ _ _ _ Hb Hmap) as (Ho0 & _ & Hr & Hq).
  pose proof (offsetMap_floatOffset _ _ _ _ Hb Hmap) as Hfo.
  pose proof (recordedOffset_in_total _ _ _ _ _ Hi Ho) as Htot.
  pose proof (size_words params base Hb) as Hsz.
  fold layout in Hmap, Hfo, Htot, Hsz.
  set (w := Z.to_nat (Z.quot o 4)).
  assert (Z.quot o 4 = Z.of_nat w) as Hw by lia.
  rewrite Hw in Hfo.
  exists o. fold w. refine (conj Hmap (conj Ho0 (conj Hr (conj _ _)))).
  - intros Ht x Hx. unfold out, layout.
    rewrite (writeParamsToBuffer_position data params base i p o w Hnd Hi Ho)
      by (pose proof (paramSize_pos p); lia).
    rewrite (writeStep_float _ _ _ w Ht Hfo).
    + by rewrite Hx.
    + rewrite writeParamsToBuffer_length. pose proof (paramSize_pos p). lia.
  - intros Ht r g b Hv. apply isVec_true in Ht.
    assert (paramSize p = 16) as Hps by (unfold paramSize; by rewrite Ht).
    replace (Z.to_nat (Z.quot o 4 + 1)) with (w + 1)%nat by lia.
    replace (Z.to_nat (Z.quot o 4 + 2)) with (w + 2)%nat by lia.
    unfold out, layout.
    rewrite !(writeParamsToBuffer_position data params base i p o _ Hnd Hi Ho)
      by lia.
    destruct (writeStep_vec layout
                (writeParamsToBuffer data (take i params) layout) p w Ht Hfo)
      as (H0 & H1 & H2).
    { rewrite writeParamsToBuffer_length. lia. }
    fold layout. rewrite H0, H1, H2, Hv. done.
Qed.

Lemma write_read_roundtrip_witness :
  0 ≤ 48 ∧ NoDup (id <$> presetParams) ∧ ordinaryIds presetParams ∧
  Z.quot (size (calculateUniformLayout presetParams 48)) 4
    ≤ Z.of_nat (length uniformData) ∧
  ∃ o, offsetMap (calculateUniformLayout presetParams 48) !! "roughness"
         = Some o ∧
       writeParamsToBuffer uniformData presetParams
         (calculateUniformLayout presetParams 48) !! Z.to_nat (Z.quot o 4)
         = Some (fround 0.05).
Proof.
  assert (NoDup (id <$> presetParams)) as Hnd.
  { apply (bool_decide_unpack _). vm_compute. exact I. }
  assert (Z.quot (size (calculateUniformLayout presetParams 48)) 4
            ≤ Z.of_nat (length uniformData)) as Hlen.
  { vm_compute. discriminate. }
  assert (ordinaryIds presetParams) as Hord.
  { apply (bool_decide_unpack _). vm_compute. exact I. }
  split; [lia|]. split; [exact Hnd|]. split; [exact Hord|].
  split; [exact Hlen|].
  destruct (write_read_roundtrip uniformData presetParams 48
              ltac:(lia) Hnd Hord Hlen
              {| id := "roughness"; type := "float"; value := Scalar 0.05 |})
    as (o & Ho & _ & _ & Hfloat & _).
  { apply list_elem_of_In. vm_compute. tauto. }
  exists o. split; [exact Ho|]. by apply Hfloat.
Defined.

(** C6, as stated, fails twice.  The buffer cell does not hold the value of
    the preset's [roughness] (0.05), which binary32 does not represent.  And
    for the one float of id [__proto__] and value 7, a list with unique ids,
    the map has no offset and the write leaves the zeroed buffer as it is:
    word 12, where the float would be, still holds 0. *)
Lemma write_read_not_exact :
  (let layout := calculateUniformLayout presetParams 48 in
   let out := writeParamsToBuffer uniformData presetParams layout in
   0 ≤ 48 ∧ NoDup (id <$> presetParams) ∧
   Z.quot (size layout) 4 ≤ Z.of_nat (length uniformData) ∧
   ∃ p x o, p ∈ presetParams ∧ type p = "float" ∧ value p = Scalar x ∧
            offsetMap layout !! id p = Some o ∧
            out !! Z.to_nat (Z.quot o 4) ≠ Some x) ∧
  (let layout := calculateUniformLayout [protoFloat] 48 in
   let out := writeParamsToBuffer uniformData [protoFloat] layout in
   0 ≤ 48 ∧ NoDup (id <$> [protoFloat]) ∧
   Z.quot (size layout) 4 ≤ Z.of_nat (length uniformData) ∧
   type protoFloat = "float" ∧ value protoFloat = Scalar 7 ∧
   offsetMap layout !! id protoFloat = None ∧
   out = uniformData ∧ out !! 12%nat = Some 0%float).
Proof.
  split.
  - intros layout out. split; [lia|]. split.
    { apply (bool_decide_unpack _). vm_compute. exact I. }
    split; [vm_compute; discriminate|].
    exists {| id := "roughness"; type := "float"; value := Scalar 0.05 |},
           0.05%float, 56.
    split; [apply list_elem_of_In; vm_compute; tauto|].
    repeat split.
    intros H. vm_compute in H. discriminate H.
  - intros layout out. split; [lia|]. split.
    { apply (bool_decide_unpack _). vm_compute. exact I. }
    split; [vm_compute; discriminate|].
    repeat split.
Qed.

(** C7, as the code has it.  For every parameter list in which no id is
    [__proto__] and parameters that share an id have the same size (every
    list with unique ids is one, [NoDup_sameIdSameSize]), and every
    [base ≥ 0] with [base + 16 * count + 16 ≤ 2^53]: every parameter has an
    offset in the map and satisfies [offsetOf[id] + size ≤ totalSizeBytes];
    hence, when the buffer holds at least [totalSizeBytes / 4] words, every
    assignment of [writeParamsToBuffer] has an integer index inside the
    buffer. *)
Theorem write_in_bounds params base :
  0 ≤ base → withinExactIntegers params base → ordinaryIds params →
  sameIdSameSize params →
  let layout := calculateUniformLayout params base in
  (∀ p, p ∈ params →
     ∃ o, offsetMap layout !! id p = Some o ∧ base ≤ o ∧
          o + paramSize p ≤ size layout) ∧
  (∀ data : list float,
     Z.quot (size layout) 4 ≤ Z.of_nat (length data) →
     ∀ p a, p ∈ params → a ∈ assignments layout p →
       ∃ j, a.1 = Some j ∧ 0 ≤ j < Z.of_nat (length data)).
Proof.
  intros Hb _ Hord Hsame layout.
  assert (∀ p, p ∈ params →
     ∃ o, offsetMap layout !! id p = Some o ∧ base ≤ o ∧
          o + paramSize p ≤ size layout) as Hslot.
  { intros p Hp.
    assert (id p ∈ (id <$> params)) as Hin.
    { apply list_elem_of_fmap. eauto. }
    destruct (last_occurrence_exists _ _ Hin) as (i & q & Hi & Hid & Hl).
    destruct (recordedOffset_defined params base i q Hi
                (ordinaryIds_lookup _ _ _ Hord Hi)) as [o Ho].
    exists o. rewrite <- Hid in Hl |- *.
    unfold layout. rewrite (offsetMap_lastOccurrence _ _ _ _ Hi Hl).
    split; [done|]. split; [apply (recordedOffset_ge _ _ _ _ Ho)|].
    rewrite (Hsame p q Hp); [|by eapply list_elem_of_lookup_2|done].
    apply (recordedOffset_in_total _ _ _ _ _ Hi Ho). }
  split; [exact Hslot|].
  intros data Hlen p a Hp Ha.
  destruct (Hslot p Hp) as (o & Hmap & Hbo & Htot).
  destruct (offsetMap_entry_word _ _ _ _ Hb Hmap) as (Ho0 & _ & _ & Hq).
  pose proof (offsetMap_floatOffset _ _ _ _ Hb Hmap) as Hfo.
  pose proof (size_words params base Hb) as Hsz.
  fold layout in Hfo, Hsz.
  destruct (assignments_index _ _ _ Ha) as [[Ht Hi]|[Hv Hi]].
  - exists (Z.quot o 4). rewrite Hi, Hfo. split; [done|].
    pose proof (paramSize_pos p). lia.
  - assert (paramSize p = 16) as Hps by (unfold paramSize; by rewrite Hv).
    rewrite Hfo in Hi. simpl in Hi.
    destruct Hi as [Hi|[Hi|Hi]]; eexists; (split; [exact Hi|]); lia.
Qed.

Lemma write_in_bounds_witness :
  0 ≤ 48 ∧ withinExactIntegers vectorParams 48 ∧ ordinaryIds vectorParams ∧
  sameIdSameSize vectorParams ∧
  ∀ p, p ∈ vectorParams →
    ∃ o, offsetMap (calculateUniformLayout vectorParams 48) !! id p = Some o ∧
         48 ≤ o ∧
         o + paramSize p ≤ size (calculateUniformLayout vectorParams 48).
Proof.
  assert (sameIdSameSize vectorParams) as Hsame.
  { intros p q Hp Hq _.
    apply elem_of_cons in Hp as [->|Hp]; [|apply list_elem_of_singleton in Hp as ->];
    (apply elem_of_cons in Hq as [->|Hq]; [|apply list_elem_of_singleton in Hq as ->]);
    reflexivity. }
  assert (withinExactIntegers vectorParams 48) as Hw.
  { vm_compute. discriminate. }
  assert (ordinaryIds vectorParams) as Hord.
  { apply (bool_decide_unpack _). vm_compute. exact I. }
  split; [lia|]. split; [exact Hw|]. split; [exact Hord|].
  split; [exact Hsame|].
  apply (write_in_bounds vectorParams 48 ltac:(lia) Hw Hord Hsame).
Defined.

(** C7, as stated, fails for a list that reuses an id with another kind:
    the colour ["a"] is looked up at the offset of the later float ["a"],
    its 16 bytes end after the total size, and two of its three assignments
    fall past the end of a buffer of [totalSizeBytes / 4] words.  It also
    fails for a parameter whose id is [__proto__]: the map holds no offset
    for it. *)
Lemma write_out_of_bounds_reused_id :
  let layout := calculateUniformLayout reusedIdParams 0 in
  0 ≤ 0 ∧
  (∃ p o, p ∈ reusedIdParams ∧ offsetMap layout !! id p = Some o ∧
          ¬ (o + paramSize p ≤ size layout)) ∧
  (∃ (data : list float) p a j,
      Z.quot (size layout) 4 ≤ Z.of_nat (length data) ∧
      p ∈ reusedIdParams ∧ a ∈ assignments layout p ∧
      a.1 = Some j ∧ ¬ (0 ≤ j < Z.of_nat (length data))) ∧
  (∃ p, p ∈ [protoFloat] ∧
        offsetMap (calculateUniformLayout [protoFloat] 48) !! id p = None).
Proof.
  intros layout. split; [lia|]. split; [|split].
  - exists {| id := "a"; type := "color"; value := Triple 1 0 0 |}, 28.
    split; [apply list_elem_of_In; vm_compute; tauto|].
    split; [vm_compute; reflexivity|]. vm_compute. intros H. by apply H.
  - exists (replicate 8 0%float),
           {| id := "a"; type := "color"; value := Triple 1 0 0 |},
           (Some 9, 0%float), 9.
    split; [vm_compute; discriminate|].
    split; [apply list_elem_of_In; vm_compute; tauto|].
    split; [apply list_elem_of_In; vm_compute; tauto|].
    split; [reflexivity|]. vm_compute. intros [_ H]. discriminate H.
  - exists protoFloat. split; [|reflexivity].
    apply list_elem_of_singleton. reflexivity.
Qed.




(** ** Ids that occur more than once, and unknown kinds *)

(** C9, as the code has it.  For every [base ≥ 0] with
    [base + 16 * count + 16 ≤ 2^53]: when the id of the parameter at position
    [i], an id other than [__proto__], occurs again at a later position [j],
    and [j] is the last position carrying it, the returned map sends the id
    to the offset recorded at [j].  The earlier occurrence still advanced the
    cursor: its slot ends at or before the offset recorded at [j]; the total
    size is at least [base] plus the sizes of all parameters, and it is the
    total size of any list with the same kinds in the same order, whatever
    the ids. *)
Theorem layout_duplicate_ids params base i j p q :
  0 ≤ base → withinExactIntegers params base →
  (i < j)%nat →
  params !! i = Some p → params !! j = Some q → id p = id q →
  id q ≠ "__proto__" →
  id q ∉ (id <$> drop (S j) params) →
  let layout := calculateUniformLayout params base in
  offsetMap layout !! id p = recordedOffset params base j ∧
  (∃ o o', recordedOffset params base i = Some o ∧
           recordedOffset params base j = Some o' ∧
           offsetMap layout !! id p = Some o' ∧
           o + paramSize p ≤ o') ∧
  base + sumSizes params ≤ size layout ∧
  (∀ params', type <$> params' = type <$> params →
     size (calculateUniformLayout params' base) = size layout).
Proof.
  intros Hb _ Hij Hi Hj Hid Hne Hlast layout.
  assert (offsetMap layout !! id p = recordedOffset params base j) as Hmap.
  { rewrite Hid. by apply offsetMap_lastOccurrence. }
  refine (conj Hmap (conj _ (conj _ _))).
  - destruct (recordedOffset_defined params base i p Hi ltac:(by rewrite Hid))
      as [o Ho].
    destruct (recordedOffset_defined params base j q Hj Hne) as [o' Ho'].
    exists o, o'. split; [done|]. split; [done|].
    split; [by rewrite Hmap|].
    apply (recordedOffset_lt _ _ _ _ _ _ _ Hij Hi Ho Ho').
  - unfold layout. rewrite size_scanEnd.
    pose proof (scanEnd_ge base params).
    pose proof (padding_nonneg 16 ltac:(lia) (scanEnd base params)). lia.
  - intros params' Ht. unfold layout.
    by rewrite !size_scanEnd, (scanEnd_types base params params' Ht).
Qed.

Lemma layout_duplicate_ids_witness :
  0 ≤ 0 ∧ withinExactIntegers reusedIdParams 0 ∧ (0 < 4)%nat ∧
  (∃ o o', recordedOffset reusedIdParams 0 0 = Some o ∧
           recordedOffset reusedIdParams 0 4 = Some o' ∧
           offsetMap (calculateUniformLayout reusedIdParams 0) !! "a"
             = Some o' ∧
           o + 16 ≤ o') ∧
  0 + sumSizes reusedIdParams ≤ size (calculateUniformLayout reusedIdParams 0).
Proof.
  assert (withinExactIntegers reusedIdParams 0) as Hw.
  { vm_compute. discriminate. }
  split; [lia|]. split; [exact Hw|]. split; [lia|].
  destruct (layout_duplicate_ids reusedIdParams 0 0 4
              {| id := "a"; type := "color"; value := Triple 1 0 0 |}
              {| id := "a"; type := "float"; value := Scalar 4 |}
              ltac:(lia) Hw ltac:(lia) eq_refl eq_refl eq_refl)
    as (_ & Hslots & Hsum & _).
  { discriminate. }
  { simpl. apply not_elem_of_nil. }
  split; [exact Hslots | exact Hsum].
Defined.

(** C9, as stated, fails when the repeated id is [__proto__]: for two floats
    of that id at base 48 the returned map holds no offset for the id, while
    both occurrences advanced the cursor (the total size is 64). *)
Lemma layout_duplicate_proto_key :
  let params := [protoFloat; protoFloat] in
  let layout := calculateUniformLayout params 48 in
  (0 < 1)%nat ∧ params !! 0%nat = Some protoFloat ∧
  params !! 1%nat = Some protoFloat ∧
  (id protoFloat ∉ (id <$> drop 2 params)) ∧
  size layout = 64 ∧
  offsetMap layout !! id protoFloat = None ∧
  ¬ (∃ o', recordedOffset params 48 1 = Some o' ∧
           offsetMap layout !! id protoFloat = Some o').
Proof.
  intros params layout. split; [lia|].
  split; [reflexivity|]. split; [reflexivity|].
  split; [apply not_elem_of_nil|].
  split; [reflexivity|]. split; [reflexivity|].
  intros (o' & Ho' & _). vm_compute in Ho'. discriminate Ho'.
Qed.

(** C10, as the code has it.  A parameter whose type is none of ['color'],
    ['vec3'], ['float'] and whose id is not [__proto__] is laid out exactly
    like a float: alignment 4, size 4, the same loop step and the same layout
    as if its type were ['float']; its id gets an entry in the offset map
    and, for a [base ≥ 0] with [base + 16 * count + 16 ≤ 2^53], an offset is
    recorded at its position and the 4 bytes from it are reserved: they end
    at or before the total size and at or before every offset recorded
    later.  The writer performs no assignment for it: its iteration leaves
    the buffer as it is, and the write of a list is the write of the list
    without it. *)
Theorem unknown_kind_layout_only p :
  type p ≠ "color" → type p ≠ "vec3" → type p ≠ "float" →
  id p ≠ "__proto__" →
  let asFloat := {| id := id p; type := "float"; value := value p |} in
  (alignment p = 4 ∧ paramSize p = 4) ∧
  (∀ st, layoutStep st p = layoutStep st asFloat) ∧
  (∀ pre post base,
     calculateUniformLayout (pre ++ p :: post) base =
     calculateUniformLayout (pre ++ asFloat :: post) base) ∧
  (∀ params base, p ∈ params →
     is_Some (offsetMap (calculateUniformLayout params base) !! id p)) ∧
  (∀ params base i, 0 ≤ base → withinExactIntegers params base →
     params !! i = Some p →
     ∃ o, recordedOffset params base i = Some o ∧ base ≤ o ∧ (4 | o) ∧
          o + 4 ≤ size (calculateUniformLayout params base) ∧
          ∀ j o', (i < j)%nat → recordedOffset params base j = Some o' →
                  o + 4 ≤ o') ∧
  (∀ layout, assignments layout p = []) ∧
  (∀ layout data, writeStep layout data p = data) ∧
  (∀ layout data pre post,
     writeParamsToBuffer data (pre ++ p :: post) layout =
     writeParamsToBuffer data (pre ++ post) layout).
Proof.
  intros Hc Hv Hf Hne asFloat.
  assert (isVec p = false) as Hvec.
  { unfold isVec. apply orb_false_iff. by rewrite !String.eqb_neq. }
  assert (alignment p = 4 ∧ paramSize p = 4) as [Hal Hsz].
  { unfold alignment, paramSize. by rewrite Hvec. }
  assert (∀ st, layoutStep st p = layoutStep st asFloat) as Hstep.
  { intros [c m]. unfold layoutStep. by rewrite Hal, Hsz. }
  assert (∀ layout, assignments layout p = []) as Hnone.
  { intros layout. unfold assignments. rewrite Hvec.
    apply String.eqb_neq in Hf. by rewrite Hf. }
  assert (∀ layout data, writeStep layout data p = data) as Hwrite.
  { intros layout data. unfold writeStep. by rewrite Hnone. }
  refine (conj (conj Hal Hsz) (conj Hstep (conj _ (conj _ (conj _
            (conj Hnone (conj Hwrite _))))))).
  - intros pre post base. unfold calculateUniformLayout.
    rewrite !fold_left_app. cbn [fold_left]. by rewrite Hstep.
  - intros params base Hp.
    assert (id p ∈ (id <$> params)) as Hin.
    { apply list_elem_of_fmap. eauto. }
    destruct (last_occurrence_exists _ _ Hin) as (i & q & Hi & Hid & Hl).
    rewrite <- Hid in Hl |- *.
    rewrite (offsetMap_lastOccurrence _ _ _ _ Hi Hl).
    apply (recordedOffset_defined _ _ _ _ Hi). by rewrite Hid.
  - intros params base i Hb _ Hi.
    destruct (recordedOffset_defined params base i p Hi Hne) as [o Ho].
    exists o. split; [done|].
    split; [apply (recordedOffset_ge _ _ _ _ Ho)|].
    split.
    { rewrite <- Hal. apply (recordedOffset_aligned _ _ _ _ _ Hb Hi Ho). }
    rewrite <- Hsz. split.
    + apply (recordedOffset_in_total _ _ _ _ _ Hi Ho).
    + intros j o' Hij Ho'.
      apply (recordedOffset_lt _ _ _ _ _ _ _ Hij Hi Ho Ho').
  - intros layout data pre post. rewrite !writeParamsToBuffer_app.
    unfold writeParamsToBuffer at 1 3. cbn [fold_left]. by rewrite Hwrite.
Qed.

Lemma unknown_kind_layout_only_witness :
  let p := {| id := "uv"; type := "vec2"; value := Scalar 1 |} in
  type p ≠ "color" ∧ type p ≠ "vec3" ∧ type p ≠ "float" ∧
  id p ≠ "__proto__" ∧
  alignment p = 4 ∧ paramSize p = 4 ∧
  is_Some (offsetMap (calculateUniformLayout [p] 48) !! id p) ∧
  ∀ layout data, writeStep layout data p = data.
Proof.
  intros p.
  assert (type p ≠ "color") as Hc by discriminate.
  assert (type p ≠ "vec3") as Hv by discriminate.
  assert (type p ≠ "float") as Hf by discriminate.
  assert (id p ≠ "__proto__") as Hne by discriminate.
  destruct (unknown_kind_layout_only p Hc Hv Hf Hne)
    as ((Hal & Hsz) & _ & _ & Hentry & _ & _ & Hwrite & _).
  repeat split; try assumption.
  apply Hentry. apply list_elem_of_singleton. reflexivity.
Defined.

(** C10, as stated, fails for a parameter of unknown kind whose id is
    [__proto__]: 4 bytes are reserved for it (the total size at base 48 is
    64), but it has no entry in the offset map. *)
Lemma unknown_kind_proto_key :
  type protoUnknown ≠ "color" ∧ type protoUnknown ≠ "vec3" ∧
  type protoUnknown ≠ "float" ∧
  protoUnknown ∈ [protoUnknown] ∧
  size (calculateUniformLayout [protoUnknown] 48) = 64 ∧
  ¬ is_Some (offsetMap (calculateUniformLayout [protoUnknown] 48)
               !! id protoUnknown).
Proof.
  split; [discriminate|]. split; [discriminate|]. split; [discriminate|].
  split; [apply list_elem_of_singleton; reflexivity|].
  split; [reflexivity|].
  intros [o Ho]. vm_compute in Ho. discriminate Ho.
Qed.

(** ** Further properties of the layout *)

(** The loop reads a parameter only through its id and its kind. *)
Lemma layoutStep_same st p q :
  id q = id p → isVec q = isVec p → layoutStep st q = layoutStep st p.
Proof.
  intros Hid Hv. destruct st as [c m].
  unfold layoutStep, alignment, paramSize. by rewrite Hid, Hv.
Qed.

Lemma calculateUniformLayout_fmap (g : ShaderParam → ShaderParam) params base :
  (∀ p, id (g p) = id p ∧ isVec (g p) = isVec p) →
  calculateUniformLayout (g <$> params) base =
  calculateUniformLayout params base.
Proof.
  intros Hg. unfold calculateUniformLayout.
  assert (∀ st, fold_left layoutStep (g <$> params) st
                = fold_left layoutStep params st) as ->; [|done].
  induction params as [|p ps IH]; intros st; [done|].
  rewrite fmap_cons. cbn [fold_left].
  destruct (Hg p) as [Hid Hv]. by rewrite (layoutStep_same st p (g p)), IH.
Qed.

Lemma handleFloatChange_same k v p :
  let q := if String.eqb (id p) k && String.eqb (type p) "float"
           then {| id := id p; type := type p; value := Scalar v |} else p in
  id q = id p ∧ type q = type p ∧ isVec q = isVec p.
Proof. simpl. by destruct (String.eqb (id p) k && String.eqb (type p) "float"). Qed.

Lemma handleColorChange_same k c p :
  let q := if String.eqb (id p) k && isVec p
           then {| id := id p; type := type p; value := c |} else p in
  id q = id p ∧ type q = type p ∧ isVec q = isVec p.
Proof. simpl. by destruct (String.eqb (id p) k && isVec p). Qed.

(** X1.  Editing a value with a slider or with the colour picker leaves the
    layout as it is, for every list, id, new value and base: the offsets and
    the total size computed for the edited list are those of the list before
    the edit. *)
Theorem edit_keeps_layout params k v hex base :
  calculateUniformLayout (handleFloatChange params k v) base
  = calculateUniformLayout params base ∧
  calculateUniformLayout (handleColorChange params k hex) base
  = calculateUniformLayout params base.
Proof.
  split; apply calculateUniformLayout_fmap; intros p.
  - destruct (handleFloatChange_same k v p) as (? & _ & ?). done.
  - destruct (handleColorChange_same k (parseColor hex) p) as (? & _ & ?). done.
Qed.

(** X2.  Appending parameters never moves the ones already laid out: the
    offset recorded at a position of [ps] is the same in [ps ++ qs], an id
    that [qs] does not carry keeps its entry in the returned map, and the
    total size does not shrink. *)
Theorem layout_append ps qs base :
  (∀ i, (i < length ps)%nat →
     recordedOffset (ps ++ qs) base i = recordedOffset ps base i) ∧
  (∀ k, k ∉ (id <$> qs) →
     offsetMap (calculateUniformLayout (ps ++ qs) base) !! k
     = offsetMap (calculateUniformLayout ps base) !! k) ∧
  size (calculateUniformLayout ps base)
  ≤ size (calculateUniformLayout (ps ++ qs) base).
Proof.
  refine (conj _ (conj _ _)).
  - intros i Hi. unfold recordedOffset.
    rewrite lookup_app_l by done. rewrite take_app_le by lia. done.
  - intros k Hk. rewrite !calculateUniformLayout_fold. simpl.
    rewrite fold_left_app.
    destruct (fold_left layoutStep ps (base, ∅)) as [c m].
    by apply fold_layoutStep_notin.
  - rewrite !size_scanEnd, scanEnd_app.
    apply padding_16_mono. apply scanEnd_mono.
Qed.

(** X3.  For a [base ≥ 0] with [base + 16 * count + 16 ≤ 2^53], the block
    never takes more than 16 bytes per parameter after the base rounded up to
    a multiple of 16, and a list of colours and vectors takes exactly that;
    the total stays within 2^53. *)
Theorem layout_capacity params base :
  0 ≤ base → withinExactIntegers params base →
  size (calculateUniformLayout params base)
  ≤ base + padding 16 base + 16 * Z.of_nat (length params) ∧
  (Forall (λ p, type p = "color" ∨ type p = "vec3") params →
   size (calculateUniformLayout params base)
   = base + padding 16 base + 16 * Z.of_nat (length params)) ∧
  size (calculateUniformLayout params base) ≤ 2 ^ 53.
Proof.
  intros Hb Hw.
  destruct (layout_within_exact_integers params base Hb Hw) as ([_ Hle] & _).
  rewrite size_scanEnd in *. split; [apply scanEnd_round_le|].
  split; [|exact Hle].
  intros Hall. apply scanEnd_vectors.
  eapply Forall_impl; [exact Hall|]. intros p. apply isVec_true.
Qed.

Lemma footerOffset_spec params :
  let layout := calculateUniformLayout params STANDARD_HEADER_SIZE in
  footerOffset params = Z.quot (size layout) 4 ∧
  4 * footerOffset params = size layout ∧
  Z.rem (footerOffset params) 4 = 0 ∧
  12 ≤ footerOffset params ≤ 12 + 4 * Z.of_nat (length params).
Proof.
  intros layout.
  pose proof (size_words params STANDARD_HEADER_SIZE ltac:(done)) as Hw.
  pose proof (scanEnd_round_le STANDARD_HEADER_SIZE params) as Hle.
  pose proof (scanEnd_mono STANDARD_HEADER_SIZE params) as Hge.
  pose proof (padding_nonneg 16 ltac:(lia) (scanEnd STANDARD_HEADER_SIZE params)).
  pose proof (padding_aligned 16 ltac:(lia)
                (scanEnd STANDARD_HEADER_SIZE params)) as [d Hd].
  { unfold STANDARD_HEADER_SIZE in *. lia. }
  pose proof (size_scanEnd params STANDARD_HEADER_SIZE) as Hs.
  fold layout in Hw, Hs.
  change (padding 16 STANDARD_HEADER_SIZE) with 0 in Hle.
  unfold STANDARD_HEADER_SIZE in *.
  assert (Z.quot (size layout) 4 = 4 * d) as Hq by lia.
  assert (Z.rem (Z.quot (size layout) 4) 4 = 0) as Hr.
  { rewrite Hq. replace (4 * d) with (d * 4) by lia. apply Z.rem_mul. lia. }
  assert (footerOffset params = Z.quot (size layout) 4) as Hfo.
  { unfold footerOffset, STANDARD_HEADER_SIZE. fold layout. cbv zeta.
    by rewrite Hr. }
  rewrite Hfo. repeat split; try done; lia.
Qed.

(** X4.  In the render loop the footer starts at word [layout.size / 4]:
    the size of the computed layout is a multiple of 16, so the quotient is
    an integer multiple of 4 and the rounding guard [offset % 4 !== 0] never
    fires.  The footer starts at or after word 12, the end of the header,
    and at most 4 words later per parameter. *)
Theorem footer_offset_exact params :
  let layout := calculateUniformLayout params STANDARD_HEADER_SIZE in
  footerOffset params = Z.quot (size layout) 4 ∧
  4 * footerOffset params = size layout ∧
  Z.rem (footerOffset params) 4 = 0 ∧
  12 ≤ footerOffset params ≤ 12 + 4 * Z.of_nat (length params).
Proof.
  intros layout. destruct (footerOffset_spec params) as (Hq & Hs & Hr & Hb).
  fold layout in Hq, Hs. auto.
Qed.

(** ** The handlers of the controls *)

Lemma handleFloatChange_lookup params k v i :
  handleFloatChange params k v !! i =
  (λ p, if String.eqb (id p) k && String.eqb (type p) "float"
        then {| id := id p; type := type p; value := Scalar v |} else p)
  <$> params !! i.
Proof. unfold handleFloatChange. apply list_lookup_fmap. Qed.

Lemma handleColorChange_lookup params k hex i :
  handleColorChange params k hex !! i =
  (λ p, if String.eqb (id p) k && isVec p
        then {| id := id p; type := type p; value := parseColor hex |} else p)
  <$> params !! i.
Proof. unfold handleColorChange. apply list_lookup_fmap. Qed.

Lemma float_not_vec p : String.eqb (type p) "float" = true → isVec p = false.
Proof. intros H%String.eqb_eq. by apply isVec_float. Qed.

(** X5.  A slider edit hands [setParams] a list equal to the current one
    exactly when every float parameter with the given id already has the new
    value; in particular when no parameter has the id, or only a colour
    has.  The same holds for the colour picker and the colours and vectors
    with the id. *)
Theorem edit_unchanged_iff params k v hex :
  (handleFloatChange params k v = params ↔
   ∀ p, p ∈ params → id p = k → type p = "float" → value p = Scalar v) ∧
  (handleColorChange params k hex = params ↔
   ∀ p, p ∈ params → id p = k → type p = "color" ∨ type p = "vec3" →
        value p = parseColor hex).
Proof.
  split; split.
  - intros Heq p Hp Hid Ht. apply list_elem_of_lookup in Hp as [i Hi].
    pose proof (handleFloatChange_lookup params k v i) as Hl.
    rewrite Heq, Hi in Hl. simpl in Hl. injection Hl as Hl.
    rewrite Hid, Ht, String.eqb_refl in Hl. simpl in Hl. by rewrite Hl.
  - intros Hall. apply list_eq. intros i.
    rewrite handleFloatChange_lookup.
    destruct (params !! i) as [p|] eqn:Hi; [|done]. simpl. f_equal.
    destruct (String.eqb (id p) k) eqn:Hk; [|done].
    destruct (String.eqb (type p) "float") eqn:Ht; [|done]. simpl.
    apply String.eqb_eq in Hk, Ht.
    rewrite <- (Hall p (list_elem_of_lookup_2 _ _ _ Hi) Hk Ht).
    by destruct p.
  - intros Heq p Hp Hid Ht. apply list_elem_of_lookup in Hp as [i Hi].
    pose proof (handleColorChange_lookup params k hex i) as Hl.
    rewrite Heq, Hi in Hl. simpl in Hl. injection Hl as Hl.
    apply isVec_true in Ht.
    rewrite Hid, Ht, String.eqb_refl in Hl. simpl in Hl. by rewrite Hl.
  - intros Hall. apply list_eq. intros i.
    rewrite handleColorChange_lookup.
    destruct (params !! i) as [p|] eqn:Hi; [|done]. simpl. f_equal.
    destruct (String.eqb (id p) k) eqn:Hk; [|done].
    destruct (isVec p) eqn:Ht; [|done]. simpl.
    apply String.eqb_eq in Hk. apply isVec_true in Ht.
    rewrite <- (Hall p (list_elem_of_lookup_2 _ _ _ Hi) Hk Ht).
    by destruct p.
Qed.

(** X6.  Edits compose as assignments to distinct cells: a second slider
    edit of the same id overrides the first, slider edits of different ids
    commute, and a slider edit commutes with a colour edit, whatever the
    ids. *)
Theorem edits_compose params k k' v v' hex :
  handleFloatChange (handleFloatChange params k v) k v'
  = handleFloatChange params k v' ∧
  (k ≠ k' →
   handleFloatChange (handleFloatChange params k v) k' v'
   = handleFloatChange (handleFloatChange params k' v') k v) ∧
  handleFloatChange (handleColorChange params k hex) k' v
  = handleColorChange (handleFloatChange params k' v) k hex.
Proof.
  refine (conj _ (conj _ _)).
  - unfold handleFloatChange. rewrite <- list_fmap_compose.
    apply list_fmap_ext. intros i p _. simpl.
    destruct (String.eqb (id p) k && String.eqb (type p) "float") eqn:E;
      simpl; by rewrite E.
  - intros Hne. unfold handleFloatChange. rewrite <- !list_fmap_compose.
    apply list_fmap_ext. intros i p _. simpl.
    destruct (String.eqb (id p) k) eqn:Hk, (String.eqb (id p) k') eqn:Hk';
      simpl; rewrite ?Hk, ?Hk'; simpl; try done.
    + apply String.eqb_eq in Hk, Hk'. congruence.
    + destruct (String.eqb (type p) "float"); simpl; by rewrite ?Hk, ?Hk'.
    + destruct (String.eqb (type p) "float"); simpl; by rewrite ?Hk, ?Hk'.
  - unfold handleFloatChange, handleColorChange.
    rewrite <- !list_fmap_compose.
    apply list_fmap_ext. intros i p _. simpl.
    destruct (String.eqb (type p) "float") eqn:Ht.
    + rewrite (float_not_vec p Ht), !andb_false_r.
      destruct (String.eqb (id p) k'); simpl; rewrite ?Ht; simpl.
      * unfold isVec. simpl. apply String.eqb_eq in Ht. rewrite Ht. simpl.
        by rewrite andb_false_r.
      * by rewrite (float_not_vec p Ht), andb_false_r.
    + rewrite !andb_false_r.
      destruct (String.eqb (id p) k && isVec p) eqn:E; simpl.
      * by rewrite Ht, andb_false_r.
      * by rewrite Ht, andb_false_r.
Qed.

(** ** Further properties of the writer *)

Lemma store_agree d d' index x (j : nat) :
  length d = length d' → d !! j = d' !! j →
  store d index x !! j = store d' index x !! j.
Proof.
  intros Hlen Hj. unfold store. destruct index as [i|]; [|done].
  destruct (0 <=? i); [|done].
  destruct (decide (Z.to_nat i = j)) as [<-|Hne].
  - destruct (decide (Z.to_nat i < length d)%nat).
    + rewrite !list_lookup_insert_eq by lia. done.
    + rewrite !list_insert_ge by lia. done.
  - by rewrite !list_lookup_insert_ne.
Qed.

Lemma stores_length l d : length (stores d l) = length d.
Proof. apply fold_store_length. Qed.

Lemma stores_agree l d d' (j : nat) :
  length d = length d' → d !! j = d' !! j →
  stores d l !! j = stores d' l !! j.
Proof.
  unfold stores. revert d d'.
  induction l as [|a l IH]; intros d d' Hlen Hj; [done|].
  cbn [fold_left]. apply IH; [by rewrite !store_length|].
  by apply store_agree.
Qed.

Lemma stores_app d l l' : stores d (l ++ l') = stores (stores d l) l'.
Proof. apply fold_left_app. Qed.

(** The writer performs the assignments of its parameters one after the
    other. *)
Lemma writeParamsToBuffer_stores data params layout :
  writeParamsToBuffer data params layout
  = stores data (concat (assignments layout <$> params)).
Proof.
  unfold writeParamsToBuffer. revert data.
  induction params as [|p ps IH]; intros data; [done|].
  rewrite fmap_cons. cbn [fold_left concat]. by rewrite stores_app, IH.
Qed.

(** A word that some assignment addresses does not depend on what the buffer
    held. *)
Lemma stores_overwritten l d d' (j : nat) :
  length d = length d' →
  (∃ a, a ∈ l ∧ a.1 = Some (Z.of_nat j)) →
  stores d l !! j = stores d' l !! j.
Proof.
  intros Hlen. induction l as [|a l IH] using rev_ind; intros (b & Hb & Hj).
  { by apply elem_of_nil in Hb. }
  rewrite !stores_app. unfold stores at 1 3. cbn [fold_left].
  destruct (decide (a.1 = Some (Z.of_nat j))) as [Ha|Ha].
  - rewrite Ha. destruct (decide (j < length d)%nat).
    + rewrite !store_lookup_eq by (rewrite stores_length; lia). done.
    + rewrite !lookup_ge_None_2; [done| |];
        rewrite store_length, stores_length; lia.
  - rewrite !store_lookup_ne by done. apply IH.
    apply elem_of_app in Hb as [Hb|Hb]; [eauto|].
    apply list_elem_of_singleton in Hb as ->. done.
Qed.

Lemma writeParamsToBuffer_agree layout params d d' (j : nat) :
  length d = length d' → d !! j = d' !! j →
  writeParamsToBuffer d params layout !! j
  = writeParamsToBuffer d' params layout !! j.
Proof. rewrite !writeParamsToBuffer_stores. apply stores_agree. Qed.

(** X7.  For any layout, a word of the written buffer depends on the word
    the buffer held there and on nothing else of its content; hence writing
    the same parameters a second time changes nothing. *)
Theorem write_idempotent data params layout :
  (∀ data' (j : nat), length data = length data' → data !! j = data' !! j →
     writeParamsToBuffer data params layout !! j
     = writeParamsToBuffer data' params layout !! j) ∧
  writeParamsToBuffer (writeParamsToBuffer data params layout) params layout
  = writeParamsToBuffer data params layout.
Proof.
  split.
  { intros data' j. apply writeParamsToBuffer_agree. }
  apply list_eq. intros j.
  rewrite !writeParamsToBuffer_stores.
  set (l := concat (assignments layout <$> params)).
  destruct (decide (Exists (λ a, a.1 = Some (Z.of_nat j)) l)) as [Hhit|Hno].
  - apply stores_overwritten; [by rewrite stores_length|].
    apply Exists_exists in Hhit. done.
  - rewrite Exists_exists in Hno. unfold stores at 1.
    apply fold_store_frame. intros a Ha Hidx. apply Hno. eauto.
Qed.

(** The word of a float parameter and the three words of a colour or vector
    after the write, for unique ids and a buffer that holds the block. *)
Lemma written_float data params base i p o :
  0 ≤ base → NoDup (id <$> params) →
  let layout := calculateUniformLayout params base in
  Z.quot (size layout) 4 ≤ Z.of_nat (length data) →
  params !! i = Some p → type p = "float" →
  offsetMap layout !! id p = Some o →
  writeParamsToBuffer data params layout !! Z.to_nat (Z.quot o 4)
  = Some (fround (toNumber (value p))).
Proof.
  intros Hb Hnd layout Hlen Hi Ht Hmap.
  pose proof Hmap as Ho. unfold layout in Ho.
  rewrite (offsetMap_NoDup _ base _ _ Hnd Hi) in Ho.
  destruct (offsetMap_entry_word _ _ _ _ Hb Hmap) as (Ho0 & _ & Hr & Hq).
  pose proof (offsetMap_floatOffset _ _ _ _ Hb Hmap) as Hfo.
  pose proof (recordedOffset_in_total _ _ _ _ _ Hi Ho) as Htot.
  pose proof (size_words params base Hb) as Hsz.
  pose proof (paramSize_pos p).
  fold layout in Hfo, Htot, Hsz.
  set (w := Z.to_nat (Z.quot o 4)).
  assert (Z.quot o 4 = Z.of_nat w) as Hw by lia. rewrite Hw in Hfo.
  unfold layout.
  rewrite (writeParamsToBuffer_position data params base i p o w Hnd Hi Ho)
    by lia.
  apply writeStep_float; [done | done |].
  rewrite writeParamsToBuffer_length. lia.
Qed.

Lemma written_vec data params base i p o :
  0 ≤ base → NoDup (id <$> params) →
  let layout := calculateUniformLayout params base in
  Z.quot (size layout) 4 ≤ Z.of_nat (length data) →
  params !! i = Some p → isVec p = true →
  offsetMap layout !! id p = Some o →
  let out := writeParamsToBuffer data params layout in
  let w := Z.to_nat (Z.quot o 4) in
  (w + 2 < length data)%nat ∧
  out !! w = Some (fround (component (value p) 0)) ∧
  out !! (w + 1)%nat = Some (fround (component (value p) 1)) ∧
  out !! (w + 2)%nat = Some (fround (component (value p) 2)).
Proof.
  intros Hb Hnd layout Hlen Hi Ht Hmap out w.
  pose proof Hmap as Ho. unfold layout in Ho.
  rewrite (offsetMap_NoDup _ base _ _ Hnd Hi) in Ho.
  destruct (offsetMap_entry_word _ _ _ _ Hb Hmap) as (Ho0 & _ & Hr & Hq).
  pose proof (offsetMap_floatOffset _ _ _ _ Hb Hmap) as Hfo.
  pose proof (recordedOffset_in_total _ _ _ _ _ Hi Ho) as Htot.
  pose proof (size_words params base Hb) as Hsz.
  assert (paramSize p = 16) as Hps by (unfold paramSize; by rewrite Ht).
  fold layout in Hfo, Htot, Hsz.
  assert (Z.quot o 4 = Z.of_nat w) as Hw by lia. rewrite Hw in Hfo.
  split; [lia|]. unfold out, layout.
  rewrite !(writeParamsToBuffer_position data params base i p o _ Hnd Hi Ho)
    by lia.
  apply writeStep_vec; [done | done |].
  rewrite writeParamsToBuffer_length. lia.
Qed.

(** The writes of a list and of the list mapped through [g] agree on a word
    that no assignment of a changed parameter addresses. *)
Lemma writeParamsToBuffer_fmap_agree layout g params (j : nat) d d' :
  length d = length d' → d !! j = d' !! j →
  (∀ p, p ∈ params →
     g p = p ∨
     ((∀ a, a ∈ assignments layout p → a.1 ≠ Some (Z.of_nat j)) ∧
      (∀ a, a ∈ assignments layout (g p) → a.1 ≠ Some (Z.of_nat j)))) →
  writeParamsToBuffer d (g <$> params) layout !! j
  = writeParamsToBuffer d' params layout !! j.
Proof.
  unfold writeParamsToBuffer. revert d d'.
  induction params as [|p ps IH]; intros d d' Hlen Hj Hg; [done|].
  rewrite fmap_cons. cbn [fold_left].
  apply IH; [by rewrite !writeStep_length| |].
  - destruct (Hg p ltac:(by left)) as [->|[Hp Hgp]].
    + by apply stores_agree.
    + unfold writeStep. rewrite !fold_store_frame by done. done.
  - intros q Hq. apply Hg. by right.
Qed.

Lemma handleFloatChange_ids params k v :
  id <$> handleFloatChange params k v = id <$> params.
Proof.
  unfold handleFloatChange. rewrite <- list_fmap_compose.
  apply list_fmap_ext. intros i p _. simpl.
  by destruct (String.eqb (id p) k && String.eqb (type p) "float").
Qed.

Lemma handleColorChange_ids params k hex :
  id <$> handleColorChange params k hex = id <$> params.
Proof.
  unfold handleColorChange. rewrite <- list_fmap_compose.
  apply list_fmap_ext. intros i p _. simpl.
  by destruct (String.eqb (id p) k && isVec p).
Qed.

(** X8.  Moving the slider of a float parameter whose id is not [__proto__]
    changes exactly one word of the uniform data.  For unique ids, a
    [base ≥ 0] and a buffer that holds the block: the parameter has an offset
    in the map, and the buffer written from the edited list is the buffer written
    from the list before the edit with the word at [offsetOf[id] / 4] set to
    the new value, rounded to binary32. *)
Theorem slider_edit_one_word data params base i p v :
  0 ≤ base →
  NoDup (id <$> params) →
  let layout := calculateUniformLayout params base in
  Z.quot (size layout) 4 ≤ Z.of_nat (length data) →
  params !! i = Some p → type p = "float" → id p ≠ "__proto__" →
  let edited := handleFloatChange params (id p) v in
  ∃ o, offsetMap layout !! id p = Some o ∧
       writeParamsToBuffer data edited (calculateUniformLayout edited base)
       = <[Z.to_nat (Z.quot o 4) := fround v]>
           (writeParamsToBuffer data params layout).
Proof.
  intros Hb Hnd layout Hlen Hi Ht Hkey edited.
  destruct (recordedOffset_defined params base i p Hi Hkey) as [o Ho].
  pose proof (offsetMap_NoDup _ base _ _ Hnd Hi) as Hmap. rewrite Ho in Hmap.
  fold layout in Hmap. exists o. split; [done|].
  assert (calculateUniformLayout edited base = layout) as Hsame.
  { apply calculateUniformLayout_fmap. intros q.
    destruct (handleFloatChange_same (id p) v q) as (? & _ & ?). done. }
  pose proof (offsetMap_floatOffset _ _ _ _ Hb Hmap) as Hfo. fold layout in Hfo.
  destruct (offsetMap_entry_word _ _ _ _ Hb Hmap) as (Ho0 & _ & _ & Hq).
  set (w := Z.to_nat (Z.quot o 4)).
  assert (Z.quot o 4 = Z.of_nat w) as Hw by lia.
  assert (edited !! i
          = Some {| id := id p; type := type p; value := Scalar v |}) as Hi'.
  { unfold edited. rewrite handleFloatChange_lookup, Hi. simpl.
    by rewrite Ht, !String.eqb_refl. }
  assert (writeParamsToBuffer data edited (calculateUniformLayout edited base)
            !! w = Some (fround v)) as Hword.
  { assert (NoDup (id <$> edited)) as Hnd'.
    { unfold edited. by rewrite handleFloatChange_ids. }
    rewrite <- Hsame in Hlen, Hmap.
    apply (written_float data edited base i
             {| id := id p; type := type p; value := Scalar v |} o
             Hb Hnd' Hlen Hi' Ht Hmap). }
  apply list_eq. intros j.
  destruct (decide (j = w)) as [->|Hne].
  - rewrite Hword. symmetry. apply list_lookup_insert_eq.
    apply lookup_lt_Some in Hword.
    by rewrite writeParamsToBuffer_length in Hword |- *.
  - rewrite list_lookup_insert_ne by done. rewrite Hsame.
    apply writeParamsToBuffer_fmap_agree; [done | done |].
    intros q Hqin.
    destruct (String.eqb (id q) (id p) && String.eqb (type q) "float") eqn:E;
      [right | by left].
    apply andb_true_iff in E as [Hid Hqt]. apply String.eqb_eq in Hid, Hqt.
    assert (∀ q', id q' = id p → type q' = "float" →
              ∀ a, a ∈ assignments layout q' → a.1 ≠ Some (Z.of_nat j)) as Hq'.
    { intros q' Hid' Ht' a Ha.
      destruct (assignments_index _ _ _ Ha) as [[_ ->]|[Hv _]].
      - unfold floatOffset in *. rewrite Hid'. rewrite Hfo, Hw.
        intros [=]. lia.
      - by rewrite (isVec_float _ Ht') in Hv. }
    split; apply Hq'; done.
Qed.

Lemma slider_edit_one_word_witness :
  0 ≤ 48 ∧ NoDup (id <$> presetParams) ∧ "roughness" ≠ "__proto__" ∧
  writeParamsToBuffer uniformData
    (handleFloatChange presetParams "roughness" 0.5)
    (calculateUniformLayout
       (handleFloatChange presetParams "roughness" 0.5) 48)
  = <[14%nat := 0.5%float]>
      (writeParamsToBuffer uniformData presetParams
         (calculateUniformLayout presetParams 48)).
Proof.
  assert (NoDup (id <$> presetParams)) as Hnd.
  { apply (bool_decide_unpack _). vm_compute. exact I. }
  split; [lia|]. split; [exact Hnd|]. split; [discriminate|].
  destruct (slider_edit_one_word uniformData presetParams 48 2
              {| id := "roughness"; type := "float"; value := Scalar 0.05 |}
              0.5%float ltac:(lia) Hnd)
    as (o & Ho & Heq);
    [vm_compute; discriminate | reflexivity | reflexivity | discriminate |].
  vm_compute in Ho. injection Ho as <-. exact Heq.
Defined.

(** X9.  Picking a colour for a colour or vector parameter whose id is not
    [__proto__] changes exactly the three words of the parameter and leaves
    the fourth word of its slot, like every other word, as the write before
    the edit had it; the parameter has an offset in the map. *)
Theorem colour_edit_three_words data params base i p hex :
  0 ≤ base →
  NoDup (id <$> params) →
  let layout := calculateUniformLayout params base in
  Z.quot (size layout) 4 ≤ Z.of_nat (length data) →
  params !! i = Some p → type p = "color" ∨ type p = "vec3" →
  id p ≠ "__proto__" →
  let edited := handleColorChange params (id p) hex in
  let newColor := parseColor hex in
  ∃ o, offsetMap layout !! id p = Some o ∧
       writeParamsToBuffer data edited (calculateUniformLayout edited base)
       = <[Z.to_nat (Z.quot o 4 + 2) := fround (component newColor 2)]>
           (<[Z.to_nat (Z.quot o 4 + 1) := fround (component newColor 1)]>
              (<[Z.to_nat (Z.quot o 4) := fround (component newColor 0)]>
                 (writeParamsToBuffer data params layout))).
Proof.
  intros Hb Hnd layout Hlen Hi Ht Hkey edited newColor.
  apply isVec_true in Ht.
  destruct (recordedOffset_defined params base i p Hi Hkey) as [o Ho].
  pose proof (offsetMap_NoDup _ base _ _ Hnd Hi) as Hmap. rewrite Ho in Hmap.
  fold layout in Hmap. exists o. split; [done|].
  assert (calculateUniformLayout edited base = layout) as Hsame.
  { apply calculateUniformLayout_fmap. intros q.
    destruct (handleColorChange_same (id p) newColor q) as (? & _ & ?). done. }
  pose proof (offsetMap_floatOffset _ _ _ _ Hb Hmap) as Hfo. fold layout in Hfo.
  destruct (offsetMap_entry_word _ _ _ _ Hb Hmap) as (Ho0 & _ & _ & Hq).
  set (w := Z.to_nat (Z.quot o 4)).
  assert (Z.quot o 4 = Z.of_nat w) as Hw by lia.
  replace (Z.to_nat (Z.quot o 4 + 1)) with (w + 1)%nat by lia.
  replace (Z.to_nat (Z.quot o 4 + 2)) with (w + 2)%nat by lia.
  assert (edited !! i
          = Some {| id := id p; type := type p; value := newColor |}) as Hi'.
  { unfold edited. rewrite handleColorChange_lookup, Hi. simpl.
    by rewrite Ht, String.eqb_refl. }
  assert (NoDup (id <$> edited)) as Hnd'.
  { unfold edited. by rewrite handleColorChange_ids. }
  assert (isVec {| id := id p; type := type p; value := newColor |} = true)
    as Ht' by done.
  destruct (written_vec data edited base i
              {| id := id p; type := type p; value := newColor |} o
              Hb Hnd' ltac:(by rewrite Hsame) Hi' Ht' ltac:(by rewrite Hsame))
    as (Hin & H0 & H1 & H2).
  fold w in Hin, H0, H1, H2. cbn [value] in H0, H1, H2.
  set (out := writeParamsToBuffer data params layout).
  assert (length out = length data) as Hout
    by apply writeParamsToBuffer_length.
  apply list_eq. intros j.
  destruct (decide (j = (w + 2)%nat)) as [->|Hne2].
  { rewrite H2. symmetry. apply list_lookup_insert_eq.
    rewrite !length_insert. lia. }
  rewrite list_lookup_insert_ne by done.
  destruct (decide (j = (w + 1)%nat)) as [->|Hne1].
  { rewrite H1. symmetry. apply list_lookup_insert_eq.
    rewrite !length_insert. lia. }
  rewrite list_lookup_insert_ne by done.
  destruct (decide (j = w)) as [->|Hne0].
  { rewrite H0. symmetry. apply list_lookup_insert_eq. lia. }
  rewrite list_lookup_insert_ne by done. rewrite Hsame.
  apply writeParamsToBuffer_fmap_agree; [done | done |].
  intros q Hqin.
  destruct (String.eqb (id q) (id p) && isVec q) eqn:E; [right | by left].
  apply andb_true_iff in E as [Hid Hqv]. apply String.eqb_eq in Hid.
  assert (∀ q', id q' = id p →
            ∀ a, a ∈ assignments layout q' → a.1 ≠ Some (Z.of_nat j)) as Hq'.
  { intros q' Hid' a Ha.
    assert (floatOffset layout q' = Some (Z.of_nat w)) as Hfo'.
    { unfold floatOffset in *. rewrite Hid'. by rewrite Hfo, Hw. }
    destruct (assignments_index _ _ _ Ha) as [[_ ->]|[_ [->|[->| ->]]]];
      rewrite Hfo'; simpl; intros [=]; lia. }
  split; apply Hq'; done.
Qed.

(** ** The colour picker: from text to numbers and back *)

Lemma lowerHexDigit_elem c : lowerHexDigit c = true → c ∈ lowerHexDigits.
Proof.
  destruct c as [[] [] [] [] [] [] [] []]; vm_compute; intros H;
    try discriminate H; apply list_elem_of_In; vm_compute; tauto.
Qed.

Lemma channels_round_trip :
  forallb (λ c1, forallb (channelRoundTrips c1) lowerHexDigits) lowerHexDigits
  = true.
Proof. vm_compute. reflexivity. Qed.

Lemma channel_round_trip c1 c2 :
  lowerHexDigit c1 = true → lowerHexDigit c2 = true →
  toHex (parseInt16 (String c1 (String c2 EmptyString)) / 255)%float
  = String c1 (String c2 EmptyString).
Proof.
  intros H1%lowerHexDigit_elem H2%lowerHexDigit_elem.
  pose proof channels_round_trip as Hall.
  rewrite forallb_forall in Hall. apply list_elem_of_In in H1, H2.
  specialize (Hall c1 H1). rewrite forallb_forall in Hall.
  specialize (Hall c2 H2). by apply String.eqb_eq in Hall.
Qed.

Lemma rgbToHex_parseColor hex :
  lowerHexColor hex = true → rgbToHex (parseColor hex) = hex.
Proof.
  intros Hhex. destruct hex as [|c0 rest]; [done|].
  destruct (Ascii.eqb_spec c0 "#") as [->|Hne].
  - destruct rest as [|r1 [|r2 [|g1 [|g2 [|b1 [|b2 [|]]]]]]]; try done.
    cbn [lowerHexColor forallb] in Hhex.
    repeat (apply andb_true_iff in Hhex as [? Hhex]).
    unfold rgbToHex, parseColor, slice. cbn [component String.substring Nat.sub].
    rewrite !channel_round_trip by done. reflexivity.
  - destruct c0 as [[] [] [] [] [] [] [] []]; try discriminate Hhex.
    by destruct Hne.
Qed.

Lemma substring_short n m s :
  (String.length s ≤ n)%nat → String.substring n m s = EmptyString.
Proof.
  revert s. induction n as [|n IH]; intros [|c s] Hlen; simpl in *;
    try lia; try by destruct m.
  apply IH. lia.
Qed.

(** X10.  For every string made of [#] and six lower-case hexadecimal digits,
    the text shown for the colour parsed from the string is the string:
    every channel [n / 255] multiplied by 255 and rounded gives [n] again,
    and prints with two digits.  So after a pick the swatch of every colour
    or vector parameter with the picked id shows the picked text. *)
Theorem colour_text_round_trip hex :
  lowerHexColor hex = true →
  rgbToHex (parseColor hex) = hex ∧
  ∀ params k q, q ∈ handleColorChange params k hex → id q = k →
    type q = "color" ∨ type q = "vec3" → rgbToHex (value q) = hex.
Proof.
  intros Hhex. split; [by apply rgbToHex_parseColor|].
  intros params k q Hq Hid Ht. apply isVec_true in Ht.
  unfold handleColorChange in Hq. apply list_elem_of_fmap in Hq as (p & -> & _).
  destruct (handleColorChange_same k (parseColor hex) p) as (Hid' & _ & Hv').
  cbv zeta in Hid', Hv'. rewrite Hid' in Hid. rewrite Hv' in Ht.
  rewrite Hid, Ht, String.eqb_refl. simpl. by apply rgbToHex_parseColor.
Qed.

Lemma colour_text_round_trip_witness :
  lowerHexColor "#ff8000" = true ∧
  rgbToHex (parseColor "#ff8000") = "#ff8000".
Proof.
  split; [reflexivity|].
  apply (colour_text_round_trip "#ff8000" eq_refl).
Defined.

(** X11.  The picker does not validate its text.  A string of at most five
    characters leaves the blue channel [NaN], one of at most three also the
    green channel and one of at most one character all three; the swatch
    text of such a channel is ["NaN"]. *)
Theorem short_colour_text_NaN hex :
  ((String.length hex ≤ 5)%nat → component (parseColor hex) 2 = nan) ∧
  ((String.length hex ≤ 3)%nat → component (parseColor hex) 1 = nan) ∧
  ((String.length hex ≤ 1)%nat → component (parseColor hex) 0 = nan) ∧
  toHex nan = "NaN".
Proof.
  unfold parseColor, slice. cbn [component].
  repeat split; try (intros Hlen; by rewrite substring_short).
Qed.

Lemma short_colour_text_NaN_witness :
  (String.length "#fff" ≤ 5)%nat ∧ component (parseColor "#fff") 2 = nan.
Proof.
  split; [simpl; lia|].
  destruct (short_colour_text_NaN "#fff") as (Hblue & _).
  apply Hblue. simpl. lia.
Defined.


(** ** The uniform block of a frame *)

(** A run of assignments to consecutive words from [off]: each word holds
    the value assigned to it, when it lies inside the buffer. *)
Lemma stores_lookup_run l d off (k : nat) a :
  (∀ k' a', l !! k' = Some a' → a'.1 = Some (Z.of_nat (off + k'))) →
  l !! k = Some a → (off + k < length d)%nat →
  stores d l !! (off + k)%nat = Some (fround a.2).
Proof.
  intros Hidx Hk Hlen.
  rewrite <- (take_drop_middle l k a Hk), stores_app.
  unfold stores at 1. cbn [fold_left].
  rewrite fold_store_frame.
  - rewrite (Hidx k a Hk). apply store_lookup_eq. by rewrite stores_length.
  - intros b Hb Hbj. apply list_elem_of_lookup in Hb as [n Hn].
    rewrite lookup_drop in Hn. rewrite (Hidx _ _ Hn) in Hbj.
    injection Hbj as Hbj. lia.
Qed.

Lemma footerAssignments_index st off k a :
  footerAssignments st (Z.of_nat off) !! k = Some a →
  a.1 = Some (Z.of_nat (off + k)).
Proof.
  unfold footerAssignments. intros Hk.
  do 16 (destruct k as [|k];
         [injection Hk as <-; cbn [fst]; f_equal; lia|]).
  done.
Qed.

Lemma footerOffset_nat params :
  ∃ off : nat, footerOffset params = Z.of_nat off ∧ (12 ≤ off)%nat ∧
    4 * Z.of_nat off
    = size (calculateUniformLayout params STANDARD_HEADER_SIZE) ∧
    (off ≤ 12 + 4 * length params)%nat.
Proof.
  destruct (footerOffset_spec params) as (_ & Hs & _ & Hlo & Hhi).
  exists (Z.to_nat (footerOffset params)). repeat split; lia.
Qed.

Lemma packUniforms_length st params : length (packUniforms st params) = 128%nat.
Proof.
  unfold packUniforms.
  by rewrite stores_length, writeParamsToBuffer_length, stores_length.
Qed.

(** A word before the footer is what the header and the parameters left. *)
Lemma packUniforms_before_footer st params (j : nat) :
  Z.of_nat j < footerOffset params →
  packUniforms st params !! j
  = writeParamsToBuffer (stores uniformData (headerAssignments st)) params
      (calculateUniformLayout params STANDARD_HEADER_SIZE) !! j.
Proof.
  intros Hj. unfold packUniforms.
  destruct (footerOffset_nat params) as (off & Hoff & _).
  rewrite Hoff in Hj |- *. unfold stores at 1.
  apply fold_store_frame. intros a Ha Hidx.
  apply list_elem_of_lookup in Ha as [k Hk].
  rewrite (footerAssignments_index _ _ _ _ Hk) in Hidx.
  injection Hidx as Hidx. lia.
Qed.

(** X12.  The header of every frame is intact: whatever the parameters, no
    write of a parameter and no write of the footer reaches the first twelve
    words, which hold the resolution, the time, the camera and the pointer
    (rounded to binary32) with a zero after each triple. *)
Theorem packed_header st params :
  length (packUniforms st params) = 128%nat ∧
  take 12 (packUniforms st params)
  = fround <$> [ width st; height st; elapsedTime st; 0;
                 cx st; cy st; cz st; 0;
                 mouseX st / width st; mouseY st / height st;
                 mouseIsDown st; 0 ]%float.
Proof.
  split; [apply packUniforms_length|].
  assert (take 12 (packUniforms st params)
          = take 12 (stores uniformData (headerAssignments st))) as ->.
  { apply list_eq. intros j. destruct (decide (j < 12)%nat) as [Hj|Hj].
    - rewrite !lookup_take_lt by done.
      destruct (footerOffset_nat params) as (off & Hoff & Hlo & _).
      rewrite packUniforms_before_footer by lia.
      apply writeParamsToBuffer_frame_words. intros p _ Hword.
      destruct (valueWord_recorded _ _ _ _ Hword)
        as (i & q & o & _ & _ & Hrec & ? & _).
      pose proof (recordedOffset_ge _ _ _ _ Hrec).
      unfold STANDARD_HEADER_SIZE in *. lia.
    - rewrite !lookup_take_ge by lia. done. }
  reflexivity.
Qed.

(** X13.  The footer is written last, so for any parameter list each of the
    sixteen footer values (rounded to binary32) is in the word
    [layout.size / 4 + k] of the buffer whenever that word exists; a footer
    word past the end of the 128-word buffer is dropped without a trace.
    With at most 25 parameters all sixteen words exist. *)
Theorem packed_footer st params k a :
  footerAssignments st (footerOffset params) !! k = Some a →
  let j := (Z.to_nat (footerOffset params) + k)%nat in
  ((j < 128)%nat → packUniforms st params !! j = Some (fround a.2)) ∧
  ((128 ≤ j)%nat → packUniforms st params !! j = None) ∧
  ((length params ≤ 25)%nat → (j < 128)%nat).
Proof.
  intros Hk j. unfold j. clear j.
  destruct (footerOffset_nat params) as (off & Hoff & Hlo & _ & Hhi).
  rewrite Hoff in Hk |- *. rewrite Nat2Z.id.
  assert (k < 16)%nat as Hk16.
  { apply lookup_lt_Some in Hk. by simpl in Hk. }
  refine (conj _ (conj _ _)).
  - intros Hj. unfold packUniforms. rewrite Hoff.
    apply stores_lookup_run; [apply footerAssignments_index | done |].
    rewrite writeParamsToBuffer_length, stores_length. simpl. lia.
  - intros Hj. apply lookup_ge_None_2. by rewrite packUniforms_length.
  - lia.
Qed.

Lemma layout_fits_512 params :
  (length params ≤ 29)%nat →
  Z.quot (size (calculateUniformLayout params STANDARD_HEADER_SIZE)) 4
  ≤ Z.of_nat 128.
Proof.
  intros Hn. pose proof (size_words params STANDARD_HEADER_SIZE ltac:(done)).
  pose proof (scanEnd_round_le STANDARD_HEADER_SIZE params) as Hle.
  rewrite <- size_scanEnd in Hle.
  change (padding 16 STANDARD_HEADER_SIZE) with 0 in Hle.
  unfold STANDARD_HEADER_SIZE in *. lia.
Qed.

(** X14.  With unique ids and at most 29 parameters, the value of every
    parameter whose id is not [__proto__] reaches the buffer handed to the
    GPU: the parameter has an offset in the map, and the footer, written
    afterwards, starts after the last slot and overwrites none of them. *)
Theorem packed_params st params :
  NoDup (id <$> params) →
  (length params ≤ 29)%nat →
  let layout := calculateUniformLayout params STANDARD_HEADER_SIZE in
  let out := packUniforms st params in
  ∀ p, p ∈ params → id p ≠ "__proto__" →
    ∃ o, offsetMap layout !! id p = Some o ∧
      (type p = "float" →
         out !! Z.to_nat (Z.quot o 4) = Some (fround (toNumber (value p)))) ∧
      (type p = "color" ∨ type p = "vec3" →
         out !! Z.to_nat (Z.quot o 4)
           = Some (fround (component (value p) 0)) ∧
         out !! Z.to_nat (Z.quot o 4 + 1)
           = Some (fround (component (value p) 1)) ∧
         out !! Z.to_nat (Z.quot o 4 + 2)
           = Some (fround (component (value p) 2))).
Proof.
  intros Hnd Hn layout out p Hp Hkey.
  apply list_elem_of_lookup in Hp as [i Hi].
  assert (0 ≤ STANDARD_HEADER_SIZE) as Hb by done.
  destruct (recordedOffset_defined params STANDARD_HEADER_SIZE i p Hi Hkey)
    as [o Ho].
  pose proof (offsetMap_NoDup _ STANDARD_HEADER_SIZE _ _ Hnd Hi) as Hmap.
  rewrite Ho in Hmap. fold layout in Hmap.
  destruct (offsetMap_entry_word _ _ _ _ Hb Hmap) as (Ho0 & _ & _ & Hq).
  pose proof (recordedOffset_in_total _ _ _ _ _ Hi Ho) as Htot.
  destruct (footerOffset_nat params) as (off & Hoff & _ & Hsz & _).
  set (data := stores uniformData (headerAssignments st)).
  assert (Z.quot (size layout) 4 ≤ Z.of_nat (length data)) as Hlen.
  { unfold data. rewrite stores_length. by apply layout_fits_512. }
  exists o. split; [done|]. split.
  - intros Ht. pose proof (paramSize_pos p). unfold out.
    rewrite packUniforms_before_footer by lia.
    apply (written_float data params _ i p o Hb Hnd Hlen Hi Ht Hmap).
  - intros Ht. apply isVec_true in Ht.
    assert (paramSize p = 16) as Hps by (unfold paramSize; by rewrite Ht).
    destruct (written_vec data params _ i p o Hb Hnd Hlen Hi Ht Hmap)
      as (_ & H0 & H1 & H2).
    replace (Z.to_nat (Z.quot o 4 + 1)) with (Z.to_nat (Z.quot o 4) + 1)%nat
      by lia.
    replace (Z.to_nat (Z.quot o 4 + 2)) with (Z.to_nat (Z.quot o 4) + 2)%nat
      by lia.
    unfold out. rewrite !packUniforms_before_footer by lia. done.
Qed.

(** X15.  Every word of the frame's buffer that is no header word, no value
    word of a parameter and no footer word is zero: padding, the fourth word
    of a colour and the words after the footer never carry data from an
    earlier frame. *)
Theorem packed_unused_zero st params (j : nat) :
  (j < 128)%nat →
  j ∉ [0; 1; 2; 4; 5; 6; 8; 9; 10]%nat →
  (∀ p, p ∈ params →
     ¬ valueWord (calculateUniformLayout params STANDARD_HEADER_SIZE) p j) →
  ¬ (footerOffset params ≤ Z.of_nat j < footerOffset params + 16) →
  packUniforms st params !! j = Some 0%float.
Proof.
  intros Hj Hhead Hval Hfoot. unfold packUniforms.
  destruct (footerOffset_nat params) as (off & Hoff & _).
  rewrite Hoff in Hfoot |- *. unfold stores at 1.
  rewrite fold_store_frame.
  - rewrite writeParamsToBuffer_frame_words by done.
    unfold stores. rewrite fold_store_frame.
    + unfold uniformData. by apply lookup_replicate_2.
    + intros a Ha Hidx. apply Hhead. unfold headerAssignments in Ha.
      repeat (apply elem_of_cons in Ha as [->|Ha];
              [cbn [fst] in Hidx; injection Hidx as Hidx;
               apply list_elem_of_In; simpl; lia|]).
      by apply elem_of_nil in Ha.
  - intros a Ha Hidx. apply list_elem_of_lookup in Ha as [k Hk].
    pose proof (lookup_lt_Some _ _ _ Hk) as Hlt. simpl in Hlt.
    rewrite (footerAssignments_index _ _ _ _ Hk) in Hidx.
    injection Hidx as Hidx. lia.
Qed.

Lemma scrollTypeVal_cases effect :
  (effect = "twist" ∧ scrollTypeVal effect = 1%float) ∨
  (effect = "fly" ∧ scrollTypeVal effect = 2%float) ∨
  (effect = "chromatic" ∧ scrollTypeVal effect = 3%float) ∨
  (effect = "liquify" ∧ scrollTypeVal effect = 4%float) ∨
  (effect = "glitch" ∧ scrollTypeVal effect = 5%float) ∨
  (effect = "blackhole" ∧ scrollTypeVal effect = 6%float) ∨
  (effect = "kaleidoscope" ∧ scrollTypeVal effect = 7%float) ∨
  ((effect ∉ ["twist"; "fly"; "chromatic"; "liquify"; "glitch"; "blackhole";
              "kaleidoscope"]) ∧ scrollTypeVal effect = 0%float).
Proof.
  unfold scrollTypeVal.
  destruct (String.eqb_spec effect "twist") as [->|H1]; [by left|].
  destruct (String.eqb_spec effect "fly") as [->|H2]; [by right; left|].
  destruct (String.eqb_spec effect "chromatic") as [->|H3];
    [by do 2 right; left|].
  destruct (String.eqb_spec effect "liquify") as [->|H4];
    [by do 3 right; left|].
  destruct (String.eqb_spec effect "glitch") as [->|H5];
    [by do 4 right; left|].
  destruct (String.eqb_spec effect "blackhole") as [->|H6];
    [by do 5 right; left|].
  destruct (String.eqb_spec effect "kaleidoscope") as [->|H7];
    [by do 6 right; left|].
  do 7 right. split; [|done].
  rewrite !not_elem_of_cons. repeat split; try done. apply not_elem_of_nil.
Qed.

(** X16.  The code sent to the shader identifies the scroll effect: it is 0
    exactly for a name outside the seven effects (['none'] among them), and
    two names with the same non-zero code are the same name. *)
Theorem scroll_effect_code effect effect' :
  (scrollTypeVal effect = 0%float ↔
   (effect ∉ ["twist"; "fly"; "chromatic"; "liquify"; "glitch"; "blackhole";
              "kaleidoscope"])) ∧
  (scrollTypeVal effect = scrollTypeVal effect' →
   scrollTypeVal effect ≠ 0%float → effect = effect').
Proof.
  split.
  - split.
    + intros H0.
      destruct (scrollTypeVal_cases effect)
        as [[_ E]|[[_ E]|[[_ E]|[[_ E]|[[_ E]|[[_ E]|[[_ E]|[Hn _]]]]]]]];
        try done; rewrite E in H0; discriminate H0.
    + intros Hn.
      destruct (scrollTypeVal_cases effect)
        as [[-> _]|[[-> _]|[[-> _]|[[-> _]|[[-> _]|[[-> _]|[[-> _]|[_ E]]]]]]]];
        try done; exfalso; apply Hn; apply list_elem_of_In; simpl; tauto.
  - intros Heq Hnz.
    destruct (scrollTypeVal_cases effect)
      as [[-> E]|[[-> E]|[[-> E]|[[-> E]|[[-> E]|[[-> E]|[[-> E]|[_ E]]]]]]]];
      try done;
      destruct (scrollTypeVal_cases effect')
        as [[-> E']|[[-> E']|[[-> E']|[[-> E']|[[-> E']|[[-> E']|[[-> E']
            |[_ E']]]]]]]];
      try done; rewrite E, E' in Heq; discriminate Heq.
Qed.

Lemma scroll_effect_code_witness :
  scrollTypeVal "fly" = scrollTypeVal "fly" ∧ scrollTypeVal "fly" ≠ 0%float ∧
  "fly" = "fly".
Proof.
  assert (scrollTypeVal "fly" ≠ 0%float) as Hnz.
  { intros H. vm_compute in H. discriminate H. }
  split; [reflexivity|]. split; [exact Hnz|].
  destruct (scroll_effect_code "fly" "fly") as (_ & Hinj).
  apply (Hinj eq_refl Hnz).
Defined.

Lemma colour_edit_three_words_witness :
  0 ≤ 48 ∧ NoDup (id <$> presetParams) ∧ "baseColor" ≠ "__proto__" ∧
  ∃ o, offsetMap (calculateUniformLayout presetParams 48) !! "baseColor"
         = Some o ∧
       writeParamsToBuffer uniformData
         (handleColorChange presetParams "baseColor" "#ff8000")
         (calculateUniformLayout
            (handleColorChange presetParams "baseColor" "#ff8000") 48)
       = <[Z.to_nat (Z.quot o 4 + 2) :=
             fround (component (parseColor "#ff8000") 2)]>
           (<[Z.to_nat (Z.quot o 4 + 1) :=
                fround (component (parseColor "#ff8000") 1)]>
              (<[Z.to_nat (Z.quot o 4) :=
                   fround (component (parseColor "#ff8000") 0)]>
                 (writeParamsToBuffer uniformData presetParams
                    (calculateUniformLayout presetParams 48)))).
Proof.
  assert (NoDup (id <$> presetParams)) as Hnd.
  { apply (bool_decide_unpack _). vm_compute. exact I. }
  split; [lia|]. split; [exact Hnd|]. split; [discriminate|].
  apply (colour_edit_three_words uniformData presetParams 48 4
           {| id := "baseColor"; type := "color"; value := Triple 1 1 1 |}
           "#ff8000" ltac:(lia) Hnd);
    [vm_compute; discriminate | reflexivity | by left | discriminate].
Defined.

Lemma packed_footer_witness :
  footerAssignments sampleFrame (footerOffset presetParams) !! 2%nat
  = Some (Some 22, 2%float) ∧
  packUniforms sampleFrame presetParams !! 22%nat = Some 2%float.
Proof.
  split; [reflexivity|].
  destruct (packed_footer sampleFrame presetParams 2 (Some 22, 2%float))
    as (Hword & _); [reflexivity|].
  apply Hword. simpl. lia.
Defined.

Lemma packed_params_witness :
  NoDup (id <$> presetParams) ∧ (length presetParams ≤ 29)%nat ∧
  "roughness" ≠ "__proto__" ∧
  ∃ o, offsetMap (calculateUniformLayout presetParams STANDARD_HEADER_SIZE)
         !! "roughness" = Some o ∧
       packUniforms sampleFrame presetParams !! Z.to_nat (Z.quot o 4)
       = Some (fround 0.05).
Proof.
  assert (NoDup (id <$> presetParams)) as Hnd.
  { apply (bool_decide_unpack _). vm_compute. exact I. }
  split; [exact Hnd|]. split; [simpl; lia|]. split; [discriminate|].
  destruct (packed_params sampleFrame presetParams Hnd ltac:(simpl; lia)
              {| id := "roughness"; type := "float"; value := Scalar 0.05 |})
    as (o & Ho & Hfloat & _).
  { apply list_elem_of_In. vm_compute. tauto. }
  { discriminate. }
  exists o. split; [exact Ho|]. by apply Hfloat.
Defined.

Lemma packed_unused_zero_witness :
  (19 < 128)%nat ∧
  packUniforms sampleFrame presetParams !! 19%nat = Some 0%float.
Proof.
  split; [lia|].
  apply (packed_unused_zero sampleFrame presetParams 19); [lia | | |].
  - rewrite !not_elem_of_cons. repeat split; try lia. apply not_elem_of_nil.
  - intros p Hp (o & Ho & Hcases).
    apply list_elem_of_In in Hp. simpl in Hp.
    destruct Hp as [<-|[<-|[<-|[<-|[<-|[]]]]]];
      vm_compute in Ho; injection Ho as <-; lia.
  - vm_compute. intros [H _]. by apply H.
Defined.

Lemma store_dropped data index x :
  (match index with
   | Some i => i < 0 ∨ Z.of_nat (length data) ≤ i
   | None => True
   end) →
  store data index x = data.
Proof.
  unfold store. destruct index as [i|]; [|done]. intros Hi.
  destruct (0 <=? i) eqn:E; [|done].
  apply list_insert_ge. lia.
Qed.

(** X17.  The writer skips, without a trace, a parameter it cannot place:
    one whose id the layout does not map, one whose offset is not a multiple
    of 4, and one whose offset lies at or past the end of the buffer or more
    than two words before its start.  The buffer is then unchanged by that
    parameter. *)
Theorem write_skips_unplaced layout data p :
  (offsetMap layout !! id p = None → writeStep layout data p = data) ∧
  (∀ o, offsetMap layout !! id p = Some o →
     Z.rem o 4 ≠ 0 ∨ 4 * Z.of_nat (length data) ≤ o ∨ o < -8 →
     writeStep layout data p = data).
Proof.
  assert (∀ l : list (option Z * float),
            (∀ a, a ∈ l → match a.1 with
                          | Some i => i < 0 ∨ Z.of_nat (length data) ≤ i
                          | None => True
                          end) →
            stores data l = data) as Hdrop.
  { intros l. unfold stores. induction l as [|a l IH]; intros Hl; [done|].
    cbn [fold_left]. rewrite store_dropped by (apply Hl; by left).
    apply IH. intros b Hb. apply Hl. by right. }
  split.
  - intros Hnone. apply Hdrop. intros a Ha.
    assert (floatOffset layout p = None) as Hfo.
    { unfold floatOffset. by rewrite Hnone. }
    destruct (assignments_index _ _ _ Ha) as [[_ ->]|[_ [->|[->| ->]]]];
      by rewrite Hfo.
  - intros o Ho Hbad. apply Hdrop. intros a Ha.
    destruct (Z.rem o 4 =? 0) eqn:Hr.
    + assert (floatOffset layout p = Some (Z.quot o 4)) as Hfo.
      { unfold floatOffset. by rewrite Ho, Hr. }
      pose proof (Z.quot_rem' o 4).
      destruct (assignments_index _ _ _ Ha) as [[_ ->]|[_ [->|[->| ->]]]];
        rewrite Hfo; simpl; lia.
    + assert (floatOffset layout p = None) as Hfo.
      { unfold floatOffset. by rewrite Ho, Hr. }
      destruct (assignments_index _ _ _ Ha) as [[_ ->]|[_ [->|[->| ->]]]];
        by rewrite Hfo.
Qed.

Lemma write_skips_unplaced_witness :
  offsetMap (calculateUniformLayout vectorParams 48) !! "roughness" = None ∧
  writeStep (calculateUniformLayout vectorParams 48) uniformData
    {| id := "roughness"; type := "float"; value := Scalar 0.05 |}
  = uniformData.
Proof.
  assert (offsetMap (calculateUniformLayout vectorParams 48) !! "roughness"
          = None) as Hnone by (vm_compute; reflexivity).
  split; [exact Hnone|].
  destruct (write_skips_unplaced (calculateUniformLayout vectorParams 48)
              uniformData
              {| id := "roughness"; type := "float"; value := Scalar 0.05 |})
    as (Hskip & _).
  apply (Hskip Hnone).
Defined.

Lemma layout_capacity_witness :
  0 ≤ 48 ∧ withinExactIntegers vectorParams 48 ∧
  Forall (λ p, type p = "color" ∨ type p = "vec3") vectorParams ∧
  size (calculateUniformLayout vectorParams 48)
  = 48 + padding 16 48 + 16 * Z.of_nat (length vectorParams).
Proof.
  assert (withinExactIntegers vectorParams 48) as Hw.
  { vm_compute. discriminate. }
  assert (Forall (λ p, type p = "color" ∨ type p = "vec3") vectorParams)
    as Hall.
  { constructor; [by left | constructor; [by right | constructor]]. }
  split; [lia|]. split; [exact Hw|]. split; [exact Hall|].
  destruct (layout_capacity vectorParams 48 ltac:(lia) Hw) as (_ & Heq & _).
  apply (Heq Hall).
Defined.

Lemma edits_compose_witness :
  "roughness" ≠ "metallic" ∧
  handleFloatChange (handleFloatChange presetParams "roughness" 0.5)
    "metallic" 0.25
  = handleFloatChange (handleFloatChange presetParams "metallic" 0.25)
      "roughness" 0.5.
Proof.
  assert ("roughness" ≠ "metallic") as Hne by discriminate.
  split; [exact Hne|].
  destruct (edits_compose presetParams "roughness" "metallic" 0.5 0.25 "")
    as (_ & Hcomm & _).
  apply (Hcomm Hne).
Defined.

Lemma edit_unchanged_iff_witness :
  (∀ p, p ∈ presetParams → id p = "baseColor" → type p = "float" →
        value p = Scalar 0.5) ∧
  handleFloatChange presetParams "baseColor" 0.5 = presetParams.
Proof.
  assert (∀ p, p ∈ presetParams → id p = "baseColor" → type p = "float" →
               value p = Scalar 0.5) as Hno.
  { intros p Hp Hid Ht. apply list_elem_of_In in Hp. simpl in Hp.
    destruct Hp as [<-|[<-|[<-|[<-|[<-|[]]]]]]; discriminate. }
  split; [exact Hno|].
  destruct (edit_unchanged_iff presetParams "baseColor" 0.5 "") as ((_ & Hback) & _).
  apply (Hback Hno).
Defined.
